(** * textile: protocol handlers and block outbox

    A shallow embedding of
      - [net/service/handlers.go]  (module [Service]), and
      - [core/block_outbox.go]     (module [Outbox]),
    with the properties their design document states about them.

    Go values are modelled as follows.  A [[]byte] is a [list byte], a
    Go [string] is a [string]; [peer.ID] is the Go type [string].  A Go
    [error] is identified with its message.  A function returning
    [(T, error)] returns a [result T].  Code of other packages
    (libp2p keys, protobuf, cids, the thread registry, the SQL tables)
    is not part of the two files: its operations are the fields of the
    classes below and every theorem holds for all their instances. *)

From Stdlib Require Import String List ZArith Lia Bool.
From Stdlib.Strings Require Import Byte.
From Stdlib.Structures Require Import OrderedTypeEx.
From stdpp Require Import base option list gmap strings sorting.

Local Open Scope string_scope.
Local Open Scope list_scope.

(** ** Go basics *)

Definition bytes := list byte.

Definition error := string.

Definition errors_New (text : string) : error := text.

Inductive result (T : Type) : Type :=
| Ok (x : T)
| Err (e : error).
Arguments Ok {T} x.
Arguments Err {T} e.

#[global] Instance byte_eq_decision : EqDecision byte := byte_eq_dec.

(** ** Protocol handlers ([net/service/handlers.go]) *)

Module Service.

(** *** Wire types (package [pb]) *)

Inductive Message_MessageType : Type :=
| Message_PING
| Message_THREAD_BLOCK
| Message_OFFLINE_ACK
| Message_OFFLINE_RELAY
| Message_BLOCK
| Message_STORE
| Message_ERROR
| Message_other (tag : Z).   (* proto3 enums are open: any int32 can arrive *)

Record Any := { TypeUrl : string; Value : bytes }.

Record Message := { MessageType : Message_MessageType; Payload : option Any }.

Record Envelope := {
  Env_Message : option Message;
  Env_Pubkey : bytes;
  Env_Signature : bytes }.

Inductive ThreadBlock_Type : Type :=
| ThreadBlock_INVITE
| ThreadBlock_PHOTO
| ThreadBlock_COMMENT
| ThreadBlock_LIKE
| ThreadBlock_other (tag : Z).

Record ThreadBlock := {
  Type_ : ThreadBlock_Type;
  Target : string;
  TargetKey : bytes }.

Record SignedThreadBlock := {
  Id : string;
  ThreadId : string;
  ThreadName : string;
  IssuerPubKey : bytes;
  Data : bytes;
  Signature : bytes }.

Record pbBlock := { pb_Cid : string; pb_RawData : bytes }.

Record CidList := { Cids : list string }.

Record pbError := { Error_text : string }.

(** *** Local types *)

Definition PeerID := string.      (* type ID string *)
Definition PrivKey := bytes.
Definition PubKey := bytes.
Definition Cid := bytes.

Record Thread := { Thread_Id : string; Thread_Name : string; Thread_key : PrivKey }.

Record Peer := {
  Peer_Row : string;
  Peer_Id : string;
  Peer_ThreadId : string;
  Peer_PubKey : bytes }.

Record Pointer := { Pointer_Id : PeerID; CancelId : option PeerID }.

Record Block := { RawData : bytes; Block_Cid : Cid }.

(** The state a handler can read or write: [s.self], [s.node] and
    [s.datastore], and the thread registry behind [getThread] and
    [addThread]. *)
Record TextileService := {
  self : PeerID;
  node_PrivateKey : PrivKey;
  node_Blocks : list Block;
  threads : list Thread;
  datastore_Peers : list Peer;
  datastore_Pointers : gmap string Pointer }.

Definition set_threads (s : TextileService) (ts : list Thread) : TextileService :=
  {| self := self s; node_PrivateKey := node_PrivateKey s;
     node_Blocks := node_Blocks s; threads := ts;
     datastore_Peers := datastore_Peers s;
     datastore_Pointers := datastore_Pointers s |}.

Definition set_Peers (s : TextileService) (ps : list Peer) : TextileService :=
  {| self := self s; node_PrivateKey := node_PrivateKey s;
     node_Blocks := node_Blocks s; threads := threads s;
     datastore_Peers := ps;
     datastore_Pointers := datastore_Pointers s |}.

Definition set_Pointers (s : TextileService) (ps : gmap string Pointer)
  : TextileService :=
  {| self := self s; node_PrivateKey := node_PrivateKey s;
     node_Blocks := node_Blocks s; threads := threads s;
     datastore_Peers := datastore_Peers s;
     datastore_Pointers := ps |}.

Definition set_Blocks (s : TextileService) (bs : list Block) : TextileService :=
  {| self := self s; node_PrivateKey := node_PrivateKey s;
     node_Blocks := bs; threads := threads s;
     datastore_Peers := datastore_Peers s;
     datastore_Pointers := datastore_Pointers s |}.

(** *** Imported packages *)

(** [crypto], [libp2pc] and [peer].  [Verify] returns Go's pair
    [(bool, error)]. *)
Class Libp2p := {
  Decrypt : PrivKey -> bytes -> result bytes;
  UnmarshalPrivateKey : bytes -> result PrivKey;
  UnmarshalPublicKey : bytes -> result PubKey;
  GetPublic : PrivKey -> PubKey;
  Verify : PubKey -> bytes -> bytes -> bool * option error;
  PubKey_Bytes : PubKey -> result bytes;
  IDFromPublicKey : PubKey -> result PeerID;
  IDB58Decode : string -> result PeerID;
  Pretty : PeerID -> string;
  Pretty_inj : forall a b, Pretty a = Pretty b -> a = b }.

(** [proto] and [ptypes]. *)
Class Protobuf := {
  proto_Marshal : option Message -> result bytes;
  Unmarshal_Envelope : bytes -> result Envelope;
  Unmarshal_ThreadBlock : bytes -> result ThreadBlock;
  UnmarshalAny_SignedThreadBlock : Any -> result SignedThreadBlock;
  UnmarshalAny_Block : Any -> result pbBlock;
  UnmarshalAny_CidList : Any -> result CidList;
  UnmarshalAny_Error : Any -> result pbError;
  MarshalAny_CidList : CidList -> result Any }.

(** [cid], [blocks] and the failures of the node's block store. *)
Class Ipfs := {
  cid_Decode : string -> result Cid;
  cid_String : Cid -> string;
  NewBlockWithCid : bytes -> Cid -> result Block;
  Blockstore_fault : Cid -> option error;
  AddBlock_fault : Block -> option error }.

(** The rest of the service: thread creation and block application,
    row ids, and the failures of the SQL tables. *)
Class Host := {
  newThread : string -> PrivKey -> result Thread;
  Thread_Verify : Thread -> bytes -> bytes -> bool * option error;
  Thread_HandleBlock :
    Thread -> string -> TextileService -> option error * TextileService;
  ksuid_New : TextileService -> string;
  Peers_Add_fault : Peer -> option error;
  Pointers_Delete_fault : PeerID -> option error }.

Section Handlers.

Context `{L : Libp2p} `{P : Protobuf} `{I : Ipfs} `{H : Host}.

(** *** Collaborators of the handlers *)

(** Modelled from the spec: the thread registry is not in the file;
    [getThread] is "Lookup(threadId) -> Thread|absent". *)
Definition getThread (s : TextileService) (id : string) : option Thread :=
  List.find (fun t => bool_decide (Thread_Id t = id)) (threads s).

(** Modelled from the spec: [addThread] is "Create(name, key) -> Thread",
    which records the new thread in the registry and may fail. *)
Definition addThread (s : TextileService) (name : string) (sk : PrivKey)
  : result Thread * TextileService :=
  match newThread name sk with
  | Ok t => (Ok t, set_threads s (threads s ++ [t]))
  | Err e => (Err e, s)
  end.

(** Modelled from the spec: the peer table, "Add(peer) -> error". *)
Definition Peers_Add (s : TextileService) (p : Peer)
  : option error * TextileService :=
  match Peers_Add_fault p with
  | Some e => (Some e, s)
  | None => (None, set_Peers s (datastore_Peers s ++ [p]))
  end.

(** Modelled from the spec: the pointer table, "Get(peerId) ->
    Pointer|error" and "Delete(peerId) -> error". *)
Definition Pointers_Get (s : TextileService) (id : PeerID) : result Pointer :=
  match datastore_Pointers s !! Pretty id with
  | Some p => Ok p
  | None => Err "sql: no rows in result set"
  end.

Definition Pointers_Delete (s : TextileService) (id : PeerID)
  : option error * TextileService :=
  match Pointers_Delete_fault id with
  | Some e => (Some e, s)
  | None => (None, set_Pointers s (delete (Pretty id) (datastore_Pointers s)))
  end.

(** Modelled from the spec: the block store, "Has(cid) -> bool" and
    "Put(cid, bytes) -> error", either of which can fail. *)
Definition Blockstore_Has (s : TextileService) (c : Cid) : bool * option error :=
  match Blockstore_fault c with
  | Some e => (false, Some e)
  | None => (bool_decide (c ∈ map Block_Cid (node_Blocks s)), None)
  end.

Definition AddBlock (s : TextileService) (b : Block)
  : option error * TextileService :=
  match AddBlock_fault b with
  | Some e => (Some e, s)
  | None => (None, set_Blocks s (node_Blocks s ++ [b]))
  end.

(** *** What a handler call does *)

(** A call returns [(reply, err)] and leaves a state, or it panics on
    a nil pointer. *)
Inductive outcome : Type :=
| Return (reply : option Message) (err : option error) (s' : TextileService)
| Panic (s' : TextileService).

Definition fails (e : error) (s : TextileService) : outcome :=
  Return None (Some e) s.

(** [let! x := r orfail s in k] is Go's
    [x, err := r; if err != nil { return nil, err }; k]. *)
Notation "'let!' x ':=' r 'orfail' s 'in' k" :=
  (match r with Ok x => k | Err e => fails e s end)
  (at level 10, x name, r at level 100, s at level 9, k at level 200).

(** The [options interface{}] argument: [nil], or [true] from the relay. *)
Definition options := option bool.

Definition handler : Type :=
  TextileService -> PeerID -> Message -> options -> option outcome.

(** *** The handlers *)

Definition handlePing (s : TextileService) (pid : PeerID) (pmes : Message)
  (opts : options) : outcome :=
  Return (Some pmes) None s.

(** Lines 63-127 of [handleThreadBlock]: the [switch] on the block
    type.  A branch returns early, or control falls out of the switch
    with the current [thrd] and state, which [k] continues from. *)
Definition handleThreadBlock_switch (s : TextileService)
  (signed : SignedThreadBlock) (block : ThreadBlock) (thrd : option Thread)
  (k : option Thread -> TextileService -> outcome) : outcome :=
  match Type_ block with
  | ThreadBlock_INVITE =>
      match thrd with
      | Some _ => fails (errors_New "thread exists") s
      | None =>
        if negb (bool_decide (Target block = Pretty (self s))) then
          fails (errors_New "invalid invite target") s
        else
          let! skb := Decrypt (node_PrivateKey s) (TargetKey block) orfail s in
          let! sk := UnmarshalPrivateKey skb orfail s in
          let '(good, err) := Verify (GetPublic sk) (Data signed) (Signature signed) in
          if bool_decide (err <> None) || negb good then
            fails (errors_New "bad signature") s
          else
            let '(r, s1) := addThread s (ThreadName signed) sk in
            let! thrd := r orfail s1 in
            let! ppk := UnmarshalPublicKey (IssuerPubKey signed) orfail s1 in
            let! ppkb := PubKey_Bytes ppk orfail s1 in
            let! peerId := IDFromPublicKey ppk orfail s1 in
            let newPeer :=
              {| Peer_Row := ksuid_New s1;
                 Peer_Id := Pretty peerId;
                 Peer_ThreadId := Thread_Id thrd;
                 Peer_PubKey := ppkb |} in
            match Peers_Add s1 newPeer with
            | (Some e, s2) => fails e s2
            | (None, s2) => k (Some thrd) s2
            end
      end
  | ThreadBlock_PHOTO =>
      match thrd with
      | None => fails (errors_New "thread not found") s
      | Some t =>
        let '(good, err) := Thread_Verify t (Data signed) (Signature signed) in
        if bool_decide (err <> None) || negb good then
          fails (errors_New "bad signature") s
        else k thrd s
      end
  | ThreadBlock_COMMENT => fails (errors_New "TODO") s
  | ThreadBlock_LIKE => fails (errors_New "TODO") s
  | ThreadBlock_other _ => k thrd s
  end.

(** Line 130, [return nil, thrd.HandleBlock(signed.Id)]: [HandleBlock]
    works on the thread's fields, so a nil [thrd] panics. *)
Definition handleThreadBlock_apply (signed : SignedThreadBlock)
  (thrd : option Thread) (s : TextileService) : outcome :=
  match thrd with
  | None => Panic s
  | Some t =>
    let '(err, s') := Thread_HandleBlock t (Id signed) s in
    Return None err s'
  end.

Definition handleThreadBlock (s : TextileService) (pid : PeerID) (pmes : Message)
  (opts : options) : outcome :=
  match Payload pmes with
  | None => fails (errors_New "payload is nil") s
  | Some payload =>
    let! signed := UnmarshalAny_SignedThreadBlock payload orfail s in
    let! block := Unmarshal_ThreadBlock (Data signed) orfail s in
    let thrd := getThread s (ThreadId signed) in
    handleThreadBlock_switch s signed block thrd (handleThreadBlock_apply signed)
  end.

Definition handleOfflineAck (s : TextileService) (pid : PeerID) (pmes : Message)
  (opts : options) : outcome :=
  match Payload pmes with
  | None => fails (errors_New "payload is nil") s
  | Some payload =>
    let! _id := IDB58Decode (string_of_list_byte (Value payload)) orfail s in
    let! pointer := Pointers_Get s pid orfail s in
    match CancelId pointer with
    | None => fails (errors_New "peer is not authorized to delete pointer") s
    | Some cancel =>
      if negb (bool_decide (Pretty cancel = Pretty pid)) then
        fails (errors_New "peer is not authorized to delete pointer") s
      else
        match Pointers_Delete s pid with
        | (Some e, s') => fails e s'
        | (None, s') => Return None None s'
        end
    end
  end.

Definition handleBlock (s : TextileService) (pid : PeerID) (pmes : Message)
  (opts : options) : outcome :=
  match Payload pmes with
  | None => fails (errors_New "payload is nil") s
  | Some payload =>
    let! pbblock := UnmarshalAny_Block payload orfail s in
    let! id := cid_Decode (pb_Cid pbblock) orfail s in
    let! block := NewBlockWithCid (pb_RawData pbblock) id orfail s in
    match AddBlock s block with
    | (Some e, s') => fails e s'
    | (None, s') => Return None None s'
    end
  end.

Definition errorResponse (text : string) : Message :=
  {| MessageType := Message_ERROR;
     Payload := Some {| TypeUrl := ""; Value := list_byte_of_string text |} |}.

(** The loop of lines 250-260. *)
Fixpoint handleStore_need (s : TextileService) (ids : list string) : list string :=
  match ids with
  | [] => []
  | id :: rest =>
    match cid_Decode id with
    | Err _ => handleStore_need s rest
    | Ok decoded =>
      let '(has, err) := Blockstore_Has s decoded in
      if bool_decide (err <> None) || negb has then
        cid_String decoded :: handleStore_need s rest
      else handleStore_need s rest
    end
  end.

Definition handleStore (s : TextileService) (pid : PeerID) (pmes : Message)
  (opts : options) : outcome :=
  match Payload pmes with
  | None => fails (errors_New "payload is nil") s
  | Some payload =>
    match UnmarshalAny_CidList payload with
    | Err e => Return (Some (errorResponse "could not unmarshall message")) (Some e) s
    | Ok cList =>
      let need := handleStore_need s (Cids cList) in
      match MarshalAny_CidList {| Cids := need |} with
      | Err e => Return (Some (errorResponse "error marshalling response")) (Some e) s
      | Ok payload' =>
        Return (Some {| MessageType := Message_STORE; Payload := Some payload' |})
               None s
      end
    end
  end.

Definition handleError (s : TextileService) (pid : PeerID) (pmes : Message)
  (opts : options) : outcome :=
  match Payload pmes with
  | None => fails (errors_New "payload is nil") s
  | Some payload =>
    let! _errorMessage := UnmarshalAny_Error payload orfail s in
    Return None None s
  end.

(** [HandlerForMsgType], given the handler to return for
    [OFFLINE_RELAY]; [None] is Go's nil function value. *)
Definition HandlerForMsgType_with (relay : handler) (t : Message_MessageType)
  : option handler :=
  match t with
  | Message_PING => Some (fun s pid pmes o => Some (handlePing s pid pmes o))
  | Message_THREAD_BLOCK =>
      Some (fun s pid pmes o => Some (handleThreadBlock s pid pmes o))
  | Message_OFFLINE_ACK =>
      Some (fun s pid pmes o => Some (handleOfflineAck s pid pmes o))
  | Message_OFFLINE_RELAY => Some relay
  | Message_BLOCK => Some (fun s pid pmes o => Some (handleBlock s pid pmes o))
  | Message_STORE => Some (fun s pid pmes o => Some (handleStore s pid pmes o))
  | Message_ERROR => Some (fun s pid pmes o => Some (handleError s pid pmes o))
  | Message_other _ => None
  end.

(** [handleOfflineRelay] calls the handler of the message it unwraps,
    which can be [handleOfflineRelay] again: [depth] bounds how many
    relay envelopes may be nested, and [None] says the bound was hit. *)
Fixpoint handleOfflineRelay (depth : nat) (s : TextileService) (pid : PeerID)
  (pmes : Message) (opts : options) : option outcome :=
  match depth with
  | O => None
  | S depth' =>
    match Payload pmes with
    | None => Some (fails (errors_New "payload is nil") s)
    | Some payload =>
      match Decrypt (node_PrivateKey s) (Value payload) with
      | Err e => Some (fails e s)
      | Ok plaintext =>
      match Unmarshal_Envelope plaintext with
      | Err e => Some (fails e s)
      | Ok env =>
      match proto_Marshal (Env_Message env) with
      | Err e => Some (fails e s)
      | Ok ser =>
      match UnmarshalPublicKey (Env_Pubkey env) with
      | Err e => Some (fails e s)
      | Ok pubkey =>
        let '(valid, err) := Verify pubkey ser (Env_Signature env) in
        if bool_decide (err <> None) || negb valid then
          Some (Return None err s)
        else
          match IDFromPublicKey pubkey with
          | Err e => Some (fails e s)
          | Ok id =>
            match Env_Message env with
            | None => Some (Panic s)        (* env.Message.MessageType *)
            | Some inner =>
              match HandlerForMsgType_with (handleOfflineRelay depth')
                      (MessageType inner) with
              | None => Some (Return None None s)
              | Some handler =>
                match handler s id inner (Some true) with
                | None => None
                | Some (Panic s') => Some (Panic s')
                | Some (Return _ (Some e) s') => Some (Return None (Some e) s')
                | Some (Return _ None s') => Some (Return None None s')
                end
              end
            end
          end
      end end end end
    end
  end.

Definition HandlerForMsgType (depth : nat) (t : Message_MessageType)
  : option handler :=
  HandlerForMsgType_with (handleOfflineRelay depth) t.

(** *** Vocabulary of the properties *)

(** The result of a call through the relay: the callee's reply is
    dropped, its error, state and panics are kept (lines 199-205). *)
Definition relayed (o : outcome) : outcome :=
  match o with
  | Return _ err s' => Return None err s'
  | Panic s' => Panic s'
  end.

(** The checks of lines 157-189 all pass on [pmes]: it unwraps to
    [inner], signed by the peer [id]. *)
Definition authenticated (s : TextileService) (pmes : Message) (id : PeerID)
  (inner : Message) : Prop :=
  exists payload plaintext env ser pubkey,
    Payload pmes = Some payload /\
    Decrypt (node_PrivateKey s) (Value payload) = Ok plaintext /\
    Unmarshal_Envelope plaintext = Ok env /\
    proto_Marshal (Env_Message env) = Ok ser /\
    UnmarshalPublicKey (Env_Pubkey env) = Ok pubkey /\
    Verify pubkey ser (Env_Signature env) = (true, None) /\
    IDFromPublicKey pubkey = Ok id /\
    Env_Message env = Some inner.

(** The cids among [ids], in order: what line 252 decodes, the
    malformed ones being skipped. *)
Fixpoint decoded_cids (ids : list string) : list Cid :=
  match ids with
  | [] => []
  | id :: rest =>
    match cid_Decode id with
    | Ok c => c :: decoded_cids rest
    | Err _ => decoded_cids rest
    end
  end.

End Handlers.

(** *** A small concrete world

    One instance of each class, used to run the handlers on concrete
    messages.  Nothing is encrypted ([Decrypt] is the identity), a
    signature is one byte and is valid when that byte is 1, and the
    protobuf encodings are positional:
      - an envelope is [type; signature] followed by the payload value;
      - a signed thread block is [thread id; signature] followed by
        the block data, which is [type] followed by the target;
      - a cid list has one single-byte cid per byte, and ["!"] is not
        a cid. *)

Definition demo_MessageType (b : byte) : Message_MessageType :=
  match b with
  | x00 => Message_PING
  | x01 => Message_THREAD_BLOCK
  | x02 => Message_OFFLINE_ACK
  | x03 => Message_OFFLINE_RELAY
  | x04 => Message_BLOCK
  | x05 => Message_STORE
  | x06 => Message_ERROR
  | _ => Message_other (Z.of_N (Byte.to_N b))
  end.

Definition demo_BlockType (b : byte) : ThreadBlock_Type :=
  match b with
  | x00 => ThreadBlock_INVITE
  | x01 => ThreadBlock_PHOTO
  | x02 => ThreadBlock_COMMENT
  | x03 => ThreadBlock_LIKE
  | _ => ThreadBlock_other (Z.of_N (Byte.to_N b))
  end.

Definition demo_Libp2p : Libp2p :=
  {| Decrypt := fun _ c => Ok c;
     UnmarshalPrivateKey := fun b => Ok b;
     UnmarshalPublicKey := fun b => Ok b;
     GetPublic := fun sk => sk;
     Verify := fun _ _ sig => (bool_decide (sig = [x01]), None);
     PubKey_Bytes := fun pk => Ok pk;
     IDFromPublicKey := fun pk => Ok (string_of_list_byte pk);
     IDB58Decode := fun text =>
       if bool_decide (text = "") then Err "multihash too short" else Ok text;
     Pretty := fun id => id;
     Pretty_inj := fun a b e => e |}.

Definition demo_Protobuf : Protobuf :=
  {| proto_Marshal := fun m =>
       match m with
       | Some m => Ok (match Payload m with Some a => Value a | None => [] end)
       | None => Err "proto: Marshal called with nil"
       end;
     Unmarshal_Envelope := fun b =>
       match b with
       | t :: g :: v =>
         Ok {| Env_Message :=
                 Some {| MessageType := demo_MessageType t;
                         Payload := Some {| TypeUrl := ""; Value := v |} |};
               Env_Pubkey := list_byte_of_string "QmRelayed";
               Env_Signature := [g] |}
       | _ => Err "unexpected EOF"
       end;
     Unmarshal_ThreadBlock := fun b =>
       match b with
       | t :: target =>
         Ok {| Type_ := demo_BlockType t;
               Target := string_of_list_byte target;
               TargetKey := [] |}
       | [] => Err "unexpected EOF"
       end;
     UnmarshalAny_SignedThreadBlock := fun a =>
       match Value a with
       | i :: g :: d =>
         Ok {| Id := "block-1";
               ThreadId := string_of_list_byte [i];
               ThreadName := string_of_list_byte [i];
               IssuerPubKey := list_byte_of_string "QmInviter";
               Data := d;
               Signature := [g] |}
       | _ => Err "unexpected EOF"
       end;
     UnmarshalAny_Block := fun a =>
       match Value a with
       | c :: raw => Ok {| pb_Cid := string_of_list_byte [c]; pb_RawData := raw |}
       | [] => Err "unexpected EOF"
       end;
     UnmarshalAny_CidList := fun a =>
       if bool_decide (TypeUrl a = "CidList") then
         Ok {| Cids := map (fun b => string_of_list_byte [b]) (Value a) |}
       else Err "mismatched message type";
     UnmarshalAny_Error := fun a =>
       Ok {| Error_text := string_of_list_byte (Value a) |};
     MarshalAny_CidList := fun l =>
       Ok {| TypeUrl := "CidList";
             Value := concat (map list_byte_of_string (Cids l)) |} |}.

Definition demo_Ipfs : Ipfs :=
  {| cid_Decode := fun text =>
       match list_byte_of_string text with
       | [b] => if bool_decide (b = "!"%byte) then Err "invalid cid" else Ok [b]
       | _ => Err "invalid cid"
       end;
     cid_String := string_of_list_byte;
     NewBlockWithCid := fun raw c => Ok {| RawData := raw; Block_Cid := c |};
     Blockstore_fault := fun _ => None;
     AddBlock_fault := fun _ => None |}.

Definition demo_Host : Host :=
  {| newThread := fun name sk =>
       Ok {| Thread_Id := name; Thread_Name := name; Thread_key := sk |};
     Thread_Verify := fun _ _ sig => (bool_decide (sig = [x01]), None);
     Thread_HandleBlock := fun _ _ s => (None, s);
     ksuid_New := fun _ => "1BqYV0kJ";
     Peers_Add_fault := fun _ => None;
     Pointers_Delete_fault := fun _ => None |}.

(** A peer that tracks thread ["T"], holds block ["B"] and keeps two
    pointers: Alice's, which Alice may cancel, and Bob's, which only
    Alice may cancel. *)
Definition demo_service : TextileService :=
  {| self := "QmSelf";
     node_PrivateKey := [];
     node_Blocks := [ {| RawData := []; Block_Cid := ["B"%byte] |} ];
     threads := [ {| Thread_Id := "T"; Thread_Name := "T"; Thread_key := [] |} ];
     datastore_Peers := [];
     datastore_Pointers :=
       <["QmAlice" := {| Pointer_Id := "QmAlice"; CancelId := Some "QmAlice" |}]>
       (<["QmBob" := {| Pointer_Id := "QmBob"; CancelId := Some "QmAlice" |}]> ∅) |}.

Definition demo_msg (t : Message_MessageType) (value : bytes) : Message :=
  {| MessageType := t; Payload := Some {| TypeUrl := ""; Value := value |} |}.

(** *** More vocabulary and concrete values *)

(** The service state a call leaves behind. *)
Definition outcome_state (o : outcome) : TextileService :=
  match o with
  | Return _ _ s' => s'
  | Panic s' => s'
  end.

(** The cids of the blocks the node holds. *)
Definition held_cids (s : TextileService) : list Cid :=
  map Block_Cid (node_Blocks s).

(** The demo block store with a lookup of cid ["B"] that fails. *)
Definition demo_Ipfs_flaky : Ipfs :=
  {| cid_Decode := fun text =>
       match list_byte_of_string text with
       | [b] => if bool_decide (b = "!"%byte) then Err "invalid cid" else Ok [b]
       | _ => Err "invalid cid"
       end;
     cid_String := string_of_list_byte;
     NewBlockWithCid := fun raw c => Ok {| RawData := raw; Block_Cid := c |};
     Blockstore_fault := fun c =>
       if bool_decide (c = ["B"%byte]) then Some "leveldb: closed" else None;
     AddBlock_fault := fun _ => None |}.

(** The demo host with a peer table that refuses every insert. *)
Definition demo_Host_full : Host :=
  {| newThread := fun name sk =>
       Ok {| Thread_Id := name; Thread_Name := name; Thread_key := sk |};
     Thread_Verify := fun _ _ sig => (bool_decide (sig = [x01]), None);
     Thread_HandleBlock := fun _ _ s => (None, s);
     ksuid_New := fun _ => "1BqYV0kJ";
     Peers_Add_fault := fun _ => Some "database is locked";
     Pointers_Delete_fault := fun _ => None |}.

(** An INVITE to thread ["Z"], addressed to this peer and correctly
    signed. *)
Definition demo_invite : Message :=
  demo_msg Message_THREAD_BLOCK
    (["Z"%byte; x01; x00] ++ list_byte_of_string "QmSelf").

(** A BLOCK message carrying the block of cid ["A"] with data ["hi"]. *)
Definition demo_block : Message :=
  demo_msg Message_BLOCK (list_byte_of_string "Ahi").

(** What [demo_invite] unmarshals to in the demo world, the thread it
    creates and the peer it records. *)
Definition demo_signed : SignedThreadBlock :=
  {| Id := "block-1"; ThreadId := "Z"; ThreadName := "Z";
     IssuerPubKey := list_byte_of_string "QmInviter";
     Data := x00 :: list_byte_of_string "QmSelf";
     Signature := [x01] |}.

Definition demo_invite_block : ThreadBlock :=
  {| Type_ := ThreadBlock_INVITE; Target := "QmSelf"; TargetKey := [] |}.

Definition demo_thread : Thread :=
  {| Thread_Id := "Z"; Thread_Name := "Z"; Thread_key := [] |}.

Definition demo_inviter : Peer :=
  {| Peer_Row := "1BqYV0kJ"; Peer_Id := "QmInviter"; Peer_ThreadId := "Z";
     Peer_PubKey := list_byte_of_string "QmInviter" |}.

(** *** Vocabulary of the INVITE properties *)

Section Invitations.

Context `{L : Libp2p} `{P : Protobuf} `{H : Host}.

(** [pmes] carries the signed block [signed] with the INVITE [block],
    for a thread that is not tracked and addressed to this peer: the
    checks of lines 45-72 pass. *)
Definition invitation (s : TextileService) (pmes : Message)
  (signed : SignedThreadBlock) (block : ThreadBlock) : Prop :=
  exists payload,
    Payload pmes = Some payload /\
    UnmarshalAny_SignedThreadBlock payload = Ok signed /\
    Unmarshal_ThreadBlock (Data signed) = Ok block /\
    Type_ block = ThreadBlock_INVITE /\
    getThread s (ThreadId signed) = None /\
    Target block = Pretty (self s).

(** The target key of the invite decrypts to the thread key [sk] and
    the signature verifies under its public half: the checks of lines
    73-84 pass. *)
Definition invitation_key (s : TextileService) (signed : SignedThreadBlock)
  (block : ThreadBlock) (sk : PrivKey) : Prop :=
  exists skb,
    Decrypt (node_PrivateKey s) (TargetKey block) = Ok skb /\
    UnmarshalPrivateKey skb = Ok sk /\
    Verify (GetPublic sk) (Data signed) (Signature signed) = (true, None).

(** The peer record that lines 92-109 build for the inviter, or the
    error of the first step that fails. *)
Definition inviter_peer (s1 : TextileService) (signed : SignedThreadBlock)
  (thrd : Thread) : result Peer :=
  match UnmarshalPublicKey (IssuerPubKey signed) with
  | Err e => Err e
  | Ok ppk =>
    match PubKey_Bytes ppk with
    | Err e => Err e
    | Ok ppkb =>
      match IDFromPublicKey ppk with
      | Err e => Err e
      | Ok peerId =>
        Ok {| Peer_Row := ksuid_New s1;
              Peer_Id := Pretty peerId;
              Peer_ThreadId := Thread_Id thrd;
              Peer_PubKey := ppkb |}
      end
    end
  end.

End Invitations.

End Service.

(** ** The block outbox ([core/block_outbox.go]) *)

Module Outbox.

Import Service.

(** [pb.BlockMessage], a queued outbound message. *)
Record BlockMessage := {
  Id : string;
  Peer : string;
  Env : Envelope;
  Date : Z }.

(** A row of the peer table, with the addresses of the peer's inboxes. *)
Record Contact := { Contact_Id : string; Inboxes : list string }.

(** A request queued in the cafe outbox by [AddForInbox]. *)
Record InboxRequest := {
  Req_Peer : string;
  Req_Env : Envelope;
  Req_Inboxes : list string }.

Record ThreadsService := { online : bool }.

(** The outbox: what [q.service()] returns (nil while the node is not
    started), the two tables of [q.datastore] it uses, and the queue
    of [q.cafeOutbox]. *)
Record BlockOutbox := {
  service : option ThreadsService;
  datastore_BlockMessages : list BlockMessage;
  datastore_Peers : gmap string Contact;
  cafeOutbox : list InboxRequest }.

Definition set_BlockMessages (q : BlockOutbox) (rows : list BlockMessage)
  : BlockOutbox :=
  {| service := service q; datastore_BlockMessages := rows;
     datastore_Peers := datastore_Peers q; cafeOutbox := cafeOutbox q |}.

Definition set_cafeOutbox (q : BlockOutbox) (reqs : list InboxRequest)
  : BlockOutbox :=
  {| service := service q;
     datastore_BlockMessages := datastore_BlockMessages q;
     datastore_Peers := datastore_Peers q; cafeOutbox := reqs |}.

(** The network, and the failures of the tables and of the cafe
    outbox. *)
Class Transport := {
  SwarmConnected : string -> result bool;
  SendMessage : string -> Envelope -> option error;
  AddForInbox_fault : string -> Envelope -> list string -> option error;
  BlockMessages_Add_fault : BlockMessage -> option error;
  BlockMessages_Delete_fault : string -> option error;
  ksuid_New : list BlockMessage -> string;
  TimestampNow : list BlockMessage -> Z }.

Definition blockFlushGroupSize : nat := 16.

(** The order of the message table: by id. *)
Definition id_le (a b : BlockMessage) : Prop := String.leb (Id a) (Id b) = true.

#[global] Instance id_le_dec a b : Decision (id_le a b).
Proof. unfold id_le. apply _. Defined.

Section Queue.

Context `{T : Transport}.

(** *** The tables *)

(** [after offset m]: the row [m] comes after [offset]; with the empty
    offset every row does. *)
Definition after (offset : string) (m : BlockMessage) : bool :=
  bool_decide (offset = "") || String.ltb offset (Id m).

(** Modelled from the spec: the message table is not in the file.
    [List(offset, limit)] is "a bounded page of pending messages
    ordered by id, starting from the smallest id", and for the next
    page "starting after the last processed id". *)
Definition BlockMessages_List (rows : list BlockMessage) (offset : string)
  (limit : nat) : list BlockMessage :=
  take limit (merge_sort id_le (filter (fun m => after offset m = true) rows)).

(** Modelled from the spec: [Delete(id)] removes the row of that id,
    and can fail. *)
Definition BlockMessages_Delete (rows : list BlockMessage) (id : string)
  : option error * list BlockMessage :=
  match BlockMessages_Delete_fault id with
  | Some e => (Some e, rows)
  | None => (None, filter (fun m => Id m <> id) rows)
  end.

(** Modelled from the spec: [Add(msg)] records a row, and can fail. *)
Definition BlockMessages_Add (rows : list BlockMessage) (msg : BlockMessage)
  : option error * list BlockMessage :=
  match BlockMessages_Add_fault msg with
  | Some e => (Some e, rows)
  | None => (None, rows ++ [msg])
  end.

(** Modelled from the spec: the cafe outbox, "AddForInbox(peerId,
    envelope, inboxAddrs[]) -> error". *)
Definition AddForInbox (q : BlockOutbox) (peerId : string) (env : Envelope)
  (inboxes : list string) : option error * BlockOutbox :=
  match AddForInbox_fault peerId env inboxes with
  | Some e => (Some e, q)
  | None =>
    (None,
     set_cafeOutbox q
       (cafeOutbox q ++
        [ {| Req_Peer := peerId; Req_Env := env; Req_Inboxes := inboxes |} ]))
  end.

(** *** The outbox *)

Definition Add (q : BlockOutbox) (peerId : string) (env : Envelope)
  : option error * BlockOutbox :=
  let rows := datastore_BlockMessages q in
  let '(err, rows') :=
    BlockMessages_Add rows
      {| Id := ksuid_New rows; Peer := peerId; Env := env;
         Date := TimestampNow rows |} in
  (err, set_BlockMessages q rows').

(** [handle] runs under [Flush], past its check that [q.service()] is
    not nil: [svc] is that service. *)
Definition handle (q : BlockOutbox) (svc : ThreadsService) (peerId : string)
  (msg : BlockMessage) : option error * BlockOutbox :=
  let sendable := online svc in
  match (if sendable then SwarmConnected peerId else Ok true) with
  | Err e => (Some e, q)
  | Ok connected =>
    let sendable := sendable && connected in
    let err := if sendable then SendMessage peerId (Env msg) else None in
    if negb sendable || bool_decide (err <> None) then
      match datastore_Peers q !! peerId with
      | Some contact =>
        if bool_decide (0 < length (Inboxes contact)) then
          AddForInbox q peerId (Env msg) (Inboxes contact)
        else (None, q)
      | None => (None, q)
      end
    else (None, q)
  end.

(** Lines 69-72: [groups[msg.Peer] = append(groups[msg.Peer], msg)]. *)
Definition group_by_peer (msgs : list BlockMessage)
  : gmap string (list BlockMessage) :=
  foldl (fun groups msg =>
           <[Peer msg := default [] (groups !! Peer msg) ++ [msg]]> groups)
        ∅ msgs.

(** Lines 79-85, the body of one worker. *)
Fixpoint worker (q : BlockOutbox) (svc : ThreadsService) (id : string)
  (msgs : list BlockMessage) (toDelete : list string)
  : list string * BlockOutbox :=
  match msgs with
  | [] => (toDelete, q)
  | msg :: rest =>
    match handle q svc id msg with
    | (Some _, q') => worker q' svc id rest toDelete
    | (None, q') => worker q' svc id rest (toDelete ++ [Id msg])
    end
  end.

(** Lines 74-89.  The source starts one goroutine per group and waits
    for all of them; here the workers run one after the other, in the
    order in which the map lists its groups. *)
Definition workers (q : BlockOutbox) (svc : ThreadsService)
  (groups : gmap string (list BlockMessage)) : list string * BlockOutbox :=
  foldl (fun acc g => worker (snd acc) svc (fst g) (snd g) (fst acc))
        ([], q) (map_to_list groups).

(** Lines 95-102. *)
Fixpoint delete_each (rows : list BlockMessage) (toDelete : list string)
  : list string * list BlockMessage :=
  match toDelete with
  | [] => ([], rows)
  | id :: rest =>
    match BlockMessages_Delete rows id with
    | (Some _, rows') => delete_each rows' rest
    | (None, rows') =>
      let '(deleted, rows'') := delete_each rows' rest in
      (id :: deleted, rows'')
    end
  end.

(** [batch] calls itself on the next page: [fuel] bounds the number of
    those calls and [None] says the bound was hit.  Next to the final
    outbox, the result lists the pages the successive calls were given
    (the [msgs] of line 63). *)
Fixpoint batch (fuel : nat) (q : BlockOutbox) (svc : ThreadsService)
  (msgs : list BlockMessage) : option (BlockOutbox * list (list BlockMessage)) :=
  match last msgs with
  | None => Some (q, [msgs])
  | Some last_msg =>
    match fuel with
    | O => None
    | S fuel' =>
      let groups := group_by_peer msgs in
      let '(toDelete, q1) := workers q svc groups in
      let offset := Id last_msg in
      let next :=
        BlockMessages_List (datastore_BlockMessages q1) offset
          blockFlushGroupSize in
      let '(_deleted, rows') :=
        delete_each (datastore_BlockMessages q1) toDelete in
      match batch fuel' (set_BlockMessages q1 rows') svc next with
      | Some (q', pages) => Some (q', msgs :: pages)
      | None => None
      end
    end
  end.

Definition Flush (fuel : nat) (q : BlockOutbox)
  : option (BlockOutbox * list (list BlockMessage)) :=
  match service q with
  | None => Some (q, [])
  | Some svc =>
    batch fuel q svc
      (BlockMessages_List (datastore_BlockMessages q) "" blockFlushGroupSize)
  end.

(** *** Vocabulary of the properties *)

(** The error [handle] returns for a queued message. *)
Definition handled (q : BlockOutbox) (svc : ThreadsService) (m : BlockMessage)
  : option error :=
  fst (handle q svc (Peer m) m).

(** A flush removes [m]: it is handled without error and the table
    accepts its deletion. *)
Definition removed (q : BlockOutbox) (svc : ThreadsService) (m : BlockMessage)
  : bool :=
  bool_decide (handled q svc m = None) &&
  bool_decide (BlockMessages_Delete_fault (Id m) = None).

(** [paging rows offset pages]: [pages] are the successive pages of
    [rows] from [offset] on, each one listed after the last id of the
    one before, up to and including the first empty one. *)
Inductive paging (rows : list BlockMessage) : string -> list (list BlockMessage) -> Prop :=
| paging_stop offset :
    BlockMessages_List rows offset blockFlushGroupSize = [] ->
    paging rows offset [ [] ]
| paging_step offset m pages :
    last (BlockMessages_List rows offset blockFlushGroupSize) = Some m ->
    paging rows (Id m) pages ->
    paging rows offset
      (BlockMessages_List rows offset blockFlushGroupSize :: pages).

(** The queue holds rows made by [Add]: ids are ksuids, not empty and
    all different. *)
Definition well_keyed (rows : list BlockMessage) : Prop :=
  Forall (fun m => Id m <> "") rows /\ NoDup (Id <$> rows).

End Queue.

(** *** A small concrete outbox

    The node is started but offline.  [P1] has an inbox, [P2] has
    none, and the connection check for [P3] fails with an error; no
    table fails. *)

Definition demo_Transport : Transport :=
  {| SwarmConnected := fun p =>
       if bool_decide (p = "P3") then Err "dial backoff" else Ok false;
     SendMessage := fun _ _ => Some "context deadline exceeded";
     AddForInbox_fault := fun _ _ _ => None;
     BlockMessages_Add_fault := fun _ => None;
     BlockMessages_Delete_fault := fun _ => None;
     ksuid_New := fun rows => String.concat "" (repeat "k" (S (length rows)));
     TimestampNow := fun rows => Z.of_nat (length rows) |}.

Definition demo_env : Envelope :=
  {| Env_Message := Some (demo_msg Message_PING []);
     Env_Pubkey := [];
     Env_Signature := [x01] |}.

Definition demo_row (id peer : string) : BlockMessage :=
  {| Id := id; Peer := peer; Env := demo_env; Date := 0 |}.

Definition demo_Peers : gmap string Contact :=
  <["P1" := {| Contact_Id := "P1"; Inboxes := ["I1"] |}]> ∅.

(** The scenario of the design document: one message for [P1], one
    for [P2], the node offline. *)
Definition demo_outbox : BlockOutbox :=
  {| service := Some {| online := false |};
     datastore_BlockMessages := [demo_row "m1" "P1"; demo_row "m2" "P2"];
     datastore_Peers := demo_Peers;
     cafeOutbox := [] |}.

(** The same peers with the node online and eighteen messages, stored
    out of order, of which those for [P3] cannot be handled. *)
Definition demo_backlog : BlockOutbox :=
  {| service := Some {| online := true |};
     datastore_BlockMessages :=
       [ demo_row "m07" "P1"; demo_row "m02" "P2"; demo_row "m18" "P3";
         demo_row "m04" "P1"; demo_row "m05" "P2"; demo_row "m06" "P3";
         demo_row "m01" "P1"; demo_row "m08" "P2"; demo_row "m09" "P3";
         demo_row "m10" "P1"; demo_row "m11" "P2"; demo_row "m12" "P3";
         demo_row "m13" "P1"; demo_row "m14" "P2"; demo_row "m15" "P3";
         demo_row "m16" "P1"; demo_row "m17" "P2"; demo_row "m03" "P3" ];
     datastore_Peers := demo_Peers;
     cafeOutbox := [] |}.

(** *** Vocabulary of the delivery properties *)

Section Delivery.

Context `{T : Transport}.

(** The error of the connection check of lines 111-120, when the check
    is made and fails. *)
Definition connection_error (svc : ThreadsService) (peerId : string)
  : option error :=
  if online svc then
    match SwarmConnected peerId with
    | Err e => Some e
    | Ok _ => None
    end
  else None.

(** The message goes out directly: the node is online, the peer is
    connected and [SendMessage] returns no error. *)
Definition sent_direct (svc : ThreadsService) (peerId : string)
  (m : BlockMessage) : bool :=
  online svc &&
  match SwarmConnected peerId with
  | Ok true => bool_decide (SendMessage peerId (Env m) = None)
  | _ => false
  end.

(** The inboxes known for a peer; none when the peer is not a contact. *)
Definition inboxes_of (q : BlockOutbox) (peerId : string) : list string :=
  match datastore_Peers q !! peerId with
  | Some contact => Inboxes contact
  | None => []
  end.

(** The request [handle peerId m] leaves in the cafe outbox, if any. *)
Definition relay_request (q : BlockOutbox) (svc : ThreadsService)
  (peerId : string) (m : BlockMessage) : option InboxRequest :=
  match connection_error svc peerId with
  | Some _ => None
  | None =>
    if sent_direct svc peerId m then None
    else
      match inboxes_of q peerId with
      | [] => None
      | inboxes =>
        match AddForInbox_fault peerId (Env m) inboxes with
        | Some _ => None
        | None =>
          Some {| Req_Peer := peerId; Req_Env := Env m; Req_Inboxes := inboxes |}
        end
      end
  end.

(** The row [Add] makes for a peer and an envelope (lines 40-45). *)
Definition added_row (q : BlockOutbox) (peerId : string) (env : Envelope)
  : BlockMessage :=
  {| Id := ksuid_New (datastore_BlockMessages q); Peer := peerId; Env := env;
     Date := TimestampNow (datastore_BlockMessages q) |}.

End Delivery.

(** The demo network with every peer connected; sending to [P2]
    fails. *)
Definition demo_Transport_up : Transport :=
  {| SwarmConnected := fun _ => Ok true;
     SendMessage := fun p _ =>
       if bool_decide (p = "P2") then Some "stream reset" else None;
     AddForInbox_fault := fun _ _ _ => None;
     BlockMessages_Add_fault := fun _ => None;
     BlockMessages_Delete_fault := fun _ => None;
     ksuid_New := fun rows => String.concat "" (repeat "k" (S (length rows)));
     TimestampNow := fun rows => Z.of_nat (length rows) |}.

(** The demo network with a cafe outbox that refuses every request. *)
Definition demo_Transport_cafe_down : Transport :=
  {| SwarmConnected := fun _ => Ok false;
     SendMessage := fun _ _ => None;
     AddForInbox_fault := fun _ _ _ => Some "database is locked";
     BlockMessages_Add_fault := fun _ => None;
     BlockMessages_Delete_fault := fun _ => None;
     ksuid_New := fun rows => String.concat "" (repeat "k" (S (length rows)));
     TimestampNow := fun rows => Z.of_nat (length rows) |}.

(** The demo network with a message table that refuses every
    delete. *)
Definition demo_Transport_stuck : Transport :=
  {| SwarmConnected := fun _ => Ok false;
     SendMessage := fun _ _ => None;
     AddForInbox_fault := fun _ _ _ => None;
     BlockMessages_Add_fault := fun _ => None;
     BlockMessages_Delete_fault := fun _ => Some "database is locked";
     ksuid_New := fun rows => String.concat "" (repeat "k" (S (length rows)));
     TimestampNow := fun rows => Z.of_nat (length rows) |}.

(** The outbox of [demo_outbox] with the node online. *)
Definition demo_outbox_online : BlockOutbox :=
  {| service := Some {| online := true |};
     datastore_BlockMessages := [demo_row "m1" "P1"; demo_row "m2" "P2"];
     datastore_Peers := demo_Peers;
     cafeOutbox := [] |}.

End Outbox.

(** ** Properties of the handlers *)

Section HandlerProperties.

Import Service.

Context `{L : Libp2p} `{P : Protobuf} `{I : Ipfs} `{H : Host}.

Implicit Types (s : TextileService) (pid : PeerID) (pmes : Message)
  (opts : options).

Lemma handleOfflineRelay_authenticated depth s pid pmes opts id inner :
  authenticated s pmes id inner ->
  handleOfflineRelay (S depth) s pid pmes opts =
    match HandlerForMsgType depth (MessageType inner) with
    | None => Some (Return None None s)
    | Some handler => relayed <$> handler s id inner (Some true)
    end.
Proof.
  intros (payload & plaintext & env & ser & pubkey &
          Hp & Hd & He & Hm & Hk & Hv & Hi & Hin).
  cbn [handleOfflineRelay].
  rewrite Hp, Hd, He, Hm, Hk, Hv. cbn.
  rewrite Hi, Hin. unfold HandlerForMsgType.
  destruct (HandlerForMsgType_with _ _) as [h|]; [|reflexivity].
  destruct (h s id inner (Some true)) as [[r [e|] s'|s']|]; reflexivity.
Qed.

Lemma HandlerForMsgType_total depth t h s pid pmes opts :
  t <> Message_OFFLINE_RELAY ->
  HandlerForMsgType depth t = Some h ->
  exists o, h s pid pmes opts = Some o.
Proof.
  unfold HandlerForMsgType.
  destruct t; cbn; intros Ht Hh; try congruence;
    injection Hh as <-; eauto.
Qed.

(** C1, as the code has it.  When the inner envelope's signature does
    not verify and [Verify] reports that without an error of its own
    (as it does for a well-formed signature that is simply wrong),
    [handleOfflineRelay] does not dispatch the inner message, but it
    returns [(nil, nil)]: the relay handling succeeds instead of
    failing.  Line 183 returns [err], which is nil here. *)
Theorem handleOfflineRelay_bad_signature_succeeds
  depth s pid pmes opts payload plaintext env ser pubkey :
  Payload pmes = Some payload ->
  Decrypt (node_PrivateKey s) (Value payload) = Ok plaintext ->
  Unmarshal_Envelope plaintext = Ok env ->
  proto_Marshal (Env_Message env) = Ok ser ->
  UnmarshalPublicKey (Env_Pubkey env) = Ok pubkey ->
  Verify pubkey ser (Env_Signature env) = (false, None) ->
  handleOfflineRelay (S depth) s pid pmes opts = Some (Return None None s).
Proof.
  intros Hp Hd He Hm Hk Hv. cbn [handleOfflineRelay].
  rewrite Hp, Hd, He, Hm, Hk, Hv. reflexivity.
Qed.

(** When [Verify] itself fails, its error is what the handler
    returns. *)
Lemma handleOfflineRelay_verify_error
  depth s pid pmes opts payload plaintext env ser pubkey valid e :
  Payload pmes = Some payload ->
  Decrypt (node_PrivateKey s) (Value payload) = Ok plaintext ->
  Unmarshal_Envelope plaintext = Ok env ->
  proto_Marshal (Env_Message env) = Ok ser ->
  UnmarshalPublicKey (Env_Pubkey env) = Ok pubkey ->
  Verify pubkey ser (Env_Signature env) = (valid, Some e) ->
  handleOfflineRelay (S depth) s pid pmes opts = Some (Return None (Some e) s).
Proof.
  intros Hp Hd He Hm Hk Hv. cbn [handleOfflineRelay].
  rewrite Hp, Hd, He, Hm, Hk, Hv. reflexivity.
Qed.

(** C3, as the code has it.  A block whose type is none of INVITE,
    PHOTO, COMMENT and LIKE leaves the switch without any check; when
    its thread is not tracked locally, control reaches
    [thrd.HandleBlock] with a nil [thrd], and the handler panics. *)
Theorem handleThreadBlock_unknown_type_nil_thread
  s pid pmes opts payload signed block tag :
  Payload pmes = Some payload ->
  UnmarshalAny_SignedThreadBlock payload = Ok signed ->
  Unmarshal_ThreadBlock (Data signed) = Ok block ->
  Type_ block = ThreadBlock_other tag ->
  getThread s (ThreadId signed) = None ->
  (forall k, handleThreadBlock_switch s signed block None k = k None s) /\
  handleThreadBlock s pid pmes opts = Panic s.
Proof.
  intros Hp Hs Hb Ht Hg. split.
  - intros k. unfold handleThreadBlock_switch. now rewrite Ht.
  - unfold handleThreadBlock. rewrite Hp, Hs, Hb, Hg.
    unfold handleThreadBlock_switch. now rewrite Ht.
Qed.

(** For the four known block types the switch hands a thread to the
    final call or returns early: what the continuation would do with
    a nil thread is irrelevant. *)
Lemma handleThreadBlock_switch_known_types s signed block thrd k k' :
  (forall tag, Type_ block <> ThreadBlock_other tag) ->
  (forall t s', k (Some t) s' = k' (Some t) s') ->
  handleThreadBlock_switch s signed block thrd k =
  handleThreadBlock_switch s signed block thrd k'.
Proof.
  intros Hknown Hk. unfold handleThreadBlock_switch, addThread, Peers_Add.
  destruct (Type_ block) eqn:Ht; try reflexivity.
  - destruct thrd as [t|]; [reflexivity|].
    destruct (negb _); [reflexivity|].
    destruct (Decrypt _ _) as [skb|e]; [|reflexivity].
    destruct (UnmarshalPrivateKey skb) as [sk|e]; [|reflexivity].
    destruct (Verify _ _ _) as [good err].
    destruct (_ || _); [reflexivity|].
    destruct (newThread _ sk) as [t|e]; [|reflexivity].
    destruct (UnmarshalPublicKey _) as [ppk|e]; [|reflexivity].
    destruct (PubKey_Bytes ppk) as [ppkb|e]; [|reflexivity].
    destruct (IDFromPublicKey ppk) as [peerId|e]; [|reflexivity].
    destruct (Peers_Add_fault _); [reflexivity|apply Hk].
  - destruct thrd as [t|]; [|reflexivity].
    destruct (Thread_Verify _ _ _) as [good err].
    destruct (_ || _); [reflexivity|apply Hk].
  - now contradiction (Hknown tag).
Qed.

(** C4, amended.  An INVITE for a thread that is already tracked fails
    with "thread exists" and changes nothing, whatever its target; an
    INVITE for a thread that is not tracked and whose target is not
    this peer fails with "invalid invite target" and changes nothing. *)
Theorem handleThreadBlock_INVITE_rejected
  s pid pmes opts payload signed block :
  Payload pmes = Some payload ->
  UnmarshalAny_SignedThreadBlock payload = Ok signed ->
  Unmarshal_ThreadBlock (Data signed) = Ok block ->
  Type_ block = ThreadBlock_INVITE ->
  (forall t, getThread s (ThreadId signed) = Some t ->
     handleThreadBlock s pid pmes opts =
       Return None (Some (errors_New "thread exists")) s) /\
  (getThread s (ThreadId signed) = None ->
   Target block <> Pretty (self s) ->
     handleThreadBlock s pid pmes opts =
       Return None (Some (errors_New "invalid invite target")) s).
Proof.
  intros Hp Hs Hb Ht. unfold handleThreadBlock. rewrite Hp, Hs, Hb.
  unfold handleThreadBlock_switch. rewrite Ht. split.
  - intros t ->. reflexivity.
  - intros -> Hne. rewrite bool_decide_eq_false_2 by assumption. reflexivity.
Qed.

(** C5.  An OFFLINE_ACK with a well-formed payload, from a sender for
    whom a pointer is stored.  When the pointer's [CancelId] is the
    sender the handler deletes the pointer, and returns what the
    delete returns.  For any other [CancelId], nil included, it fails
    with "peer is not authorized to delete pointer" and the service
    state is unchanged.  So, the pointer table accepting deletes, the
    pointer is gone afterwards if and only if [CancelId] is the
    sender. *)
Theorem handleOfflineAck_deletes_iff_authorized
  s pid pmes opts payload decoded pointer :
  Payload pmes = Some payload ->
  IDB58Decode (string_of_list_byte (Value payload)) = Ok decoded ->
  datastore_Pointers s !! Pretty pid = Some pointer ->
  (CancelId pointer = Some pid ->
     handleOfflineAck s pid pmes opts =
       Return None (fst (Pointers_Delete s pid)) (snd (Pointers_Delete s pid))) /\
  (CancelId pointer <> Some pid ->
     handleOfflineAck s pid pmes opts =
       Return None
         (Some (errors_New "peer is not authorized to delete pointer")) s) /\
  (Pointers_Delete_fault pid = None ->
   exists reply err s',
     handleOfflineAck s pid pmes opts = Return reply err s' /\
     (datastore_Pointers s' !! Pretty pid = None <->
      CancelId pointer = Some pid)).
Proof.
  intros Hp Hd Hg.
  assert (Hyes : CancelId pointer = Some pid ->
     handleOfflineAck s pid pmes opts =
       Return None (fst (Pointers_Delete s pid)) (snd (Pointers_Delete s pid))).
  { intros Hc. unfold handleOfflineAck, Pointers_Get.
    rewrite Hp, Hd, Hg, Hc.
    rewrite bool_decide_eq_true_2 by reflexivity. cbn.
    now destruct (Pointers_Delete s pid) as [[e|] s']. }
  assert (Hno : CancelId pointer <> Some pid ->
     handleOfflineAck s pid pmes opts =
       Return None
         (Some (errors_New "peer is not authorized to delete pointer")) s).
  { intros Hc. unfold handleOfflineAck, Pointers_Get.
    rewrite Hp, Hd, Hg.
    destruct (CancelId pointer) as [cancel|]; [|reflexivity].
    rewrite bool_decide_eq_false_2; [reflexivity|].
    intros Heq. apply Pretty_inj in Heq. congruence. }
  split; [exact Hyes|]. split; [exact Hno|]. intros Hf.
  destruct (decide (CancelId pointer = Some pid)) as [Hc|Hc].
  - eexists _, _, _. split; [exact (Hyes Hc)|].
    unfold Pointers_Delete. rewrite Hf. cbn.
    split; [intros _; exact Hc|intros _; apply lookup_delete_eq].
  - eexists _, _, _. split; [exact (Hno Hc)|].
    split; [intros Hnone; congruence|intros Hc'; contradiction].
Qed.

(** C6.  A PHOTO block for a thread that is not tracked fails with
    "thread not found".  For a tracked thread the signature is checked
    by that thread's own [Verify]: when the check errors or answers
    false the handler fails with "bad signature", and otherwise the
    block is applied to that thread. *)
Theorem handleThreadBlock_PHOTO
  s pid pmes opts payload signed block :
  Payload pmes = Some payload ->
  UnmarshalAny_SignedThreadBlock payload = Ok signed ->
  Unmarshal_ThreadBlock (Data signed) = Ok block ->
  Type_ block = ThreadBlock_PHOTO ->
  (getThread s (ThreadId signed) = None ->
     handleThreadBlock s pid pmes opts =
       Return None (Some (errors_New "thread not found")) s) /\
  (forall t good err,
     getThread s (ThreadId signed) = Some t ->
     Thread_Verify t (Data signed) (Signature signed) = (good, err) ->
     (good = false \/ err <> None ->
        handleThreadBlock s pid pmes opts =
          Return None (Some (errors_New "bad signature")) s) /\
     (good = true /\ err = None ->
        handleThreadBlock s pid pmes opts =
          handleThreadBlock_apply signed (Some t) s)).
Proof.
  intros Hp Hs Hb Ht. unfold handleThreadBlock. rewrite Hp, Hs, Hb.
  unfold handleThreadBlock_switch. rewrite Ht. split.
  - intros ->. reflexivity.
  - intros t good err -> ->. split.
    + intros [->|Herr].
      * now rewrite orb_true_r.
      * now rewrite bool_decide_eq_true_2.
    + intros [-> ->]. rewrite bool_decide_eq_false_2 by (intros []; reflexivity).
      reflexivity.
Qed.

(** C7, amended.  Every handler the dispatcher has, other than the one
    for PING, rejects a message whose payload is nil with "payload is
    nil" and no reply; the PING handler does not look at the payload
    and replies with the message it was given. *)
Theorem nil_payload_rejected_except_PING depth t h s pid pmes opts :
  HandlerForMsgType (S depth) t = Some h ->
  Payload pmes = None ->
  (t <> Message_PING ->
     h s pid pmes opts =
       Some (Return None (Some (errors_New "payload is nil")) s)) /\
  (t = Message_PING ->
     h s pid pmes opts = Some (Return (Some pmes) None s)).
Proof.
  unfold HandlerForMsgType. intros Hh Hp.
  destruct t; cbn in Hh; try discriminate; injection Hh as <-;
    (split; [intros Hne|intros Heq]); try congruence;
    cbn [handleOfflineRelay];
    unfold handleThreadBlock, handleOfflineAck, handleBlock, handleStore,
      handleError, handlePing;
    rewrite ?Hp; reflexivity.
Qed.

Lemma handleStore_need_spec s ids :
  Forall (fun c => Blockstore_fault c = None) (decoded_cids ids) ->
  handleStore_need s ids =
    map cid_String
      (filter (fun c => c ∉ map Block_Cid (node_Blocks s)) (decoded_cids ids)).
Proof.
  induction ids as [|id rest IH]; cbn; [reflexivity|].
  destruct (cid_Decode id) as [c|e]; [|exact IH].
  intros Hf. apply Forall_cons in Hf as [Hc Hrest].
  unfold Blockstore_Has. rewrite Hc, filter_cons. cbn.
  destruct (decide (c ∉ map Block_Cid (node_Blocks s))) as [Hn|Hy].
  - rewrite bool_decide_eq_false_2 by exact Hn. cbn. now rewrite IH.
  - rewrite bool_decide_eq_true_2 by (now apply dec_stable). cbn. now apply IH.
Qed.

(** C8.  For a payload that unmarshals to a cid list, the block store
    answering each lookup, [handleStore] replies with a STORE message
    carrying the cids of the input that the block store does not hold,
    in the order of the input; input strings that are not cids are
    skipped.  For a payload that does not unmarshal, the reply is an
    ERROR message (returned along with the error). *)
Theorem handleStore_negotiation s pid pmes opts payload :
  Payload pmes = Some payload ->
  (forall cList payload',
     UnmarshalAny_CidList payload = Ok cList ->
     Forall (fun c => Blockstore_fault c = None) (decoded_cids (Cids cList)) ->
     let need :=
       map cid_String
         (filter (fun c => c ∉ map Block_Cid (node_Blocks s))
                 (decoded_cids (Cids cList))) in
     MarshalAny_CidList {| Cids := need |} = Ok payload' ->
     handleStore s pid pmes opts =
       Return (Some {| MessageType := Message_STORE; Payload := Some payload' |})
              None s) /\
  (forall e,
     UnmarshalAny_CidList payload = Err e ->
     exists reply,
       handleStore s pid pmes opts = Return (Some reply) (Some e) s /\
       MessageType reply = Message_ERROR).
Proof.
  intros Hp. unfold handleStore. rewrite Hp. split.
  - intros cList payload' Hu Hf. cbv zeta. intros Hm.
    now rewrite Hu, (handleStore_need_spec s _ Hf), Hm.
  - intros e Hu. rewrite Hu. eexists. split; reflexivity.
Qed.

Lemma handleOfflineRelay_reply_nil depth s pid pmes opts reply err s' :
  handleOfflineRelay depth s pid pmes opts = Some (Return reply err s') ->
  reply = None.
Proof.
  destruct depth as [|depth]; cbn [handleOfflineRelay]; [discriminate|].
  unfold fails.
  repeat match goal with
  | |- Some _ = Some _ -> _ => let E := fresh in intros E; congruence
  | |- None = Some _ -> _ => discriminate
  | |- context [match ?x with _ => _ end] => destruct x
  end.
Qed.

(** C10.  When an OFFLINE_RELAY message authenticates and the handler
    of the message it carries returns, [handleOfflineRelay] returns
    what that handler returned less its reply: same error, same state,
    and a nil reply in every case. *)
Theorem handleOfflineRelay_discards_reply depth s pid pmes opts id inner h o :
  authenticated s pmes id inner ->
  HandlerForMsgType depth (MessageType inner) = Some h ->
  h s id inner (Some true) = Some o ->
  handleOfflineRelay (S depth) s pid pmes opts = Some (relayed o) /\
  (forall reply err s',
     handleOfflineRelay (S depth) s pid pmes opts = Some (Return reply err s') ->
     reply = None).
Proof.
  intros Ha Hh Ho. split.
  - rewrite (handleOfflineRelay_authenticated _ _ _ _ _ _ _ Ha), Hh, Ho.
    reflexivity.
  - intros reply err s'. apply handleOfflineRelay_reply_nil.
Qed.

End HandlerProperties.

(** ** The handlers on concrete messages *)

Section HandlerRuns.

Import Service.

#[local] Existing Instances demo_Libp2p demo_Protobuf demo_Ipfs demo_Host.

(** An OFFLINE_RELAY message carrying a PING whose signature byte is 0,
    a wrong signature: the handler reports success. *)
Lemma handleOfflineRelay_bad_signature_succeeds_witness :
  handleOfflineRelay 1 demo_service "QmCafe"
    (demo_msg Message_OFFLINE_RELAY [x00; x00; "h"%byte; "i"%byte]) None
  = Some (Return None None demo_service).
Proof.
  eapply (handleOfflineRelay_bad_signature_succeeds 0 demo_service "QmCafe");
    reflexivity.
Defined.

(** A THREAD_BLOCK message for the untracked thread ["Z"], correctly
    signed, with block type 9: the handler panics. *)
Lemma handleThreadBlock_unknown_type_nil_thread_witness :
  handleThreadBlock demo_service "QmAlice"
    (demo_msg Message_THREAD_BLOCK ["Z"%byte; x01; x09]) None
  = Panic demo_service.
Proof.
  eapply (handleThreadBlock_unknown_type_nil_thread demo_service "QmAlice");
    reflexivity.
Defined.

(** C4, as stated, fails: an INVITE addressed to ["QmX"], which is not
    this peer (["QmSelf"]), for the tracked thread ["T"], fails with
    "thread exists" and not with "invalid invite target". *)
Lemma INVITE_wrong_target_existing_thread :
  let invite :=
    demo_msg Message_THREAD_BLOCK
      ["T"%byte; x01; x00; "Q"%byte; "m"%byte; "X"%byte] in
  (exists signed block,
     UnmarshalAny_SignedThreadBlock
       {| TypeUrl := ""; Value := ["T"%byte; x01; x00; "Q"%byte; "m"%byte; "X"%byte] |}
       = Ok signed /\
     Unmarshal_ThreadBlock (Data signed) = Ok block /\
     Type_ block = ThreadBlock_INVITE /\
     Target block <> Pretty (self demo_service)) /\
  handleThreadBlock demo_service "QmInviter" invite None
    = Return None (Some (errors_New "thread exists")) demo_service /\
  handleThreadBlock demo_service "QmInviter" invite None
    <> Return None (Some (errors_New "invalid invite target")) demo_service.
Proof.
  cbv zeta. split; [|split].
  - eexists _, _. repeat split; try reflexivity. cbn. discriminate.
  - reflexivity.
  - discriminate.
Qed.

Lemma handleThreadBlock_INVITE_rejected_witness :
  handleThreadBlock demo_service "QmInviter"
    (demo_msg Message_THREAD_BLOCK ["T"%byte; x01; x00; "Q"%byte]) None
    = Return None (Some (errors_New "thread exists")) demo_service /\
  handleThreadBlock demo_service "QmInviter"
    (demo_msg Message_THREAD_BLOCK ["Z"%byte; x01; x00; "Q"%byte]) None
    = Return None (Some (errors_New "invalid invite target")) demo_service.
Proof.
  split.
  - lazymatch goal with |- _ _ _ ?m _ = _ =>
      edestruct (handleThreadBlock_INVITE_rejected demo_service "QmInviter" m None)
        as [W _]
    end; [try reflexivity..|].
    eapply W.
    reflexivity.
  - lazymatch goal with |- _ _ _ ?m _ = _ =>
      edestruct (handleThreadBlock_INVITE_rejected demo_service "QmInviter" m None)
        as [_ W]
    end; [try reflexivity..|].
    eapply W.
    + reflexivity.
    + cbn. discriminate.
Defined.

(** Alice retracts her pointer; Bob, whose pointer names Alice as its
    canceller, cannot retract his. *)
Lemma handleOfflineAck_deletes_iff_authorized_witness :
  let ack := demo_msg Message_OFFLINE_ACK (list_byte_of_string "QmCafe") in
  handleOfflineAck demo_service "QmAlice" ack None
    = Return None None
        (set_Pointers demo_service
           (delete "QmAlice" (datastore_Pointers demo_service))) /\
  handleOfflineAck demo_service "QmBob" ack None
    = Return None
        (Some (errors_New "peer is not authorized to delete pointer"))
        demo_service.
Proof.
  cbv zeta. split.
  - lazymatch goal with |- _ _ _ ?m _ = _ =>
      edestruct (handleOfflineAck_deletes_iff_authorized demo_service "QmAlice" m None)
        as (W & _ & _)
    end; [try reflexivity..|].
    rewrite W; reflexivity.
  - lazymatch goal with |- _ _ _ ?m _ = _ =>
      edestruct (handleOfflineAck_deletes_iff_authorized demo_service "QmBob" m None)
        as (_ & W & _)
    end; [try reflexivity..|].
    eapply W. cbn. discriminate.
Defined.

(** A PHOTO for the untracked thread ["Z"], and a PHOTO for the tracked
    thread ["T"] with a wrong signature. *)
Lemma handleThreadBlock_PHOTO_witness :
  handleThreadBlock demo_service "QmAlice"
    (demo_msg Message_THREAD_BLOCK ["Z"%byte; x01; x01]) None
    = Return None (Some (errors_New "thread not found")) demo_service /\
  handleThreadBlock demo_service "QmAlice"
    (demo_msg Message_THREAD_BLOCK ["T"%byte; x00; x01]) None
    = Return None (Some (errors_New "bad signature")) demo_service.
Proof.
  split.
  - lazymatch goal with |- _ _ _ ?m _ = _ =>
      edestruct (handleThreadBlock_PHOTO demo_service "QmAlice" m None)
        as [W _]
    end; [try reflexivity..|].
    eapply W.
    reflexivity.
  - lazymatch goal with |- _ _ _ ?m _ = _ =>
      edestruct (handleThreadBlock_PHOTO demo_service "QmAlice" m None)
        as [_ W]
    end; [try reflexivity..|].
    eapply W.
    + reflexivity.
    + reflexivity.
    + left. reflexivity.
Defined.

(** C7, as stated, fails for PING: a PING with a nil payload is
    answered with itself and no error. *)
Lemma PING_nil_payload_echoed :
  let ping := {| MessageType := Message_PING; Payload := None |} in
  exists h,
    HandlerForMsgType 1 Message_PING = Some h /\
    h demo_service "QmAlice" ping None
      = Some (Return (Some ping) None demo_service) /\
    h demo_service "QmAlice" ping None
      <> Some (Return None (Some (errors_New "payload is nil")) demo_service).
Proof.
  cbv zeta. eexists. split; [reflexivity|]. split; [reflexivity|discriminate].
Qed.

Lemma nil_payload_rejected_except_PING_witness :
  let store := {| MessageType := Message_STORE; Payload := None |} in
  exists h,
    HandlerForMsgType 1 Message_STORE = Some h /\
    h demo_service "QmAlice" store None
      = Some (Return None (Some (errors_New "payload is nil")) demo_service).
Proof.
  cbv zeta. eexists. split; [reflexivity|].
  eapply (proj1 (nil_payload_rejected_except_PING 0 Message_STORE _ demo_service
            "QmAlice" {| MessageType := Message_STORE; Payload := None |} None
            eq_refl eq_refl)).
  discriminate.
Defined.

(** The cids A, B and C, and ["!"] which is not a cid: only B is held
    locally, the reply asks for A and C. *)
Lemma handleStore_negotiation_witness :
  handleStore demo_service "QmAlice"
    {| MessageType := Message_STORE;
       Payload := Some {| TypeUrl := "CidList";
                          Value := list_byte_of_string "A!BC" |} |} None
    = Return
        (Some {| MessageType := Message_STORE;
                 Payload := Some {| TypeUrl := "CidList";
                                    Value := list_byte_of_string "AC" |} |})
        None demo_service.
Proof.
  lazymatch goal with |- _ _ _ ?m _ = _ =>
    edestruct (handleStore_negotiation demo_service "QmAlice" m None)
      as [W _]
  end; [try reflexivity..|].
  eapply W.
  - reflexivity.
  - cbn. repeat constructor.
  - reflexivity.
Defined.

(** A PING delivered through the relay, correctly signed: handled
    directly it would be echoed, through the relay nothing is replied. *)
Lemma handleOfflineRelay_discards_reply_witness :
  let inner := demo_msg Message_PING [ "h"%byte; "i"%byte ] in
  handlePing demo_service "QmRelayed" inner (Some true)
    = Return (Some inner) None demo_service /\
  handleOfflineRelay 1 demo_service "QmCafe"
    (demo_msg Message_OFFLINE_RELAY [x00; x01; "h"%byte; "i"%byte]) None
    = Some (Return None None demo_service).
Proof.
  cbv zeta. split; [reflexivity|].
  eapply (proj1 (handleOfflineRelay_discards_reply 0 demo_service "QmCafe"
            _ None "QmRelayed" (demo_msg Message_PING [ "h"%byte; "i"%byte ])
            _ _ _ eq_refl eq_refl)).
  Unshelve.
  do 5 eexists. repeat split; reflexivity.
Defined.

End HandlerRuns.

(** ** Properties of the block outbox *)

(** *** The order of ids *)

Lemma ltb_lt a b : String.ltb a b = true <-> String_as_OT.lt a b.
Proof.
  unfold String.ltb. rewrite <- String_as_OT.cmp_lt. unfold String_as_OT.cmp.
  destruct (String.compare a b); split; congruence.
Qed.

Lemma ltb_irrefl a : String.ltb a a = false.
Proof.
  destruct (String.ltb a a) eqn:E; [|reflexivity].
  apply ltb_lt in E. exfalso. apply (String_as_OT.lt_not_eq _ _ E). reflexivity.
Qed.

Lemma ltb_trans a b c :
  String.ltb a b = true -> String.ltb b c = true -> String.ltb a c = true.
Proof. rewrite !ltb_lt. apply String_as_OT.lt_trans. Qed.

Lemma leb_iff a b : String.leb a b = true <-> String.ltb a b = true \/ a = b.
Proof.
  unfold String.leb, String.ltb.
  destruct (String.compare a b) eqn:E.
  - apply String.compare_eq_iff in E. tauto.
  - tauto.
  - split; [discriminate|]. intros [E'| ->]; [discriminate|].
    pose proof (String.compare_antisym b b) as A. rewrite E in A. discriminate.
Qed.

Lemma leb_not_ltb a b : String.leb a b = true -> String.ltb b a = false.
Proof.
  intros [Hlt| ->]%leb_iff; [|apply ltb_irrefl].
  destruct (String.ltb b a) eqn:E; [|reflexivity].
  pose proof (ltb_trans _ _ _ Hlt E) as Hc. now rewrite ltb_irrefl in Hc.
Qed.

Lemma leb_trans a b c :
  String.leb a b = true -> String.leb b c = true -> String.leb a c = true.
Proof.
  rewrite !leb_iff. intros [H1| ->] [H2| ->]; eauto using ltb_trans.
Qed.

(** *** Handling one page *)

Section OutboxProperties.

Import Service.
Import Outbox.

Context `{T : Transport}.

Implicit Types (q : BlockOutbox) (svc : ThreadsService) (m : BlockMessage)
  (rows msgs : list BlockMessage).

Lemma filter_ext_elem {A} (P Q : A -> Prop) `{!forall x, Decision (P x)}
  `{!forall x, Decision (Q x)} (l : list A) :
  (forall x, x ∈ l -> P x <-> Q x) -> filter P l = filter Q l.
Proof.
  induction l as [|a l IH]; intros HPQ; [reflexivity|].
  rewrite !filter_cons, IH by (intros x Hx; apply HPQ; now right).
  destruct (decide (P a)) as [Hp|Hp], (decide (Q a)) as [Hq|Hq];
    try reflexivity; exfalso; apply (HPQ a (list_elem_of_here _ _)) in Hp || apply Hp, (HPQ a (list_elem_of_here _ _)); tauto.
Qed.

(** [handle] touches the cafe outbox only. *)
Lemma handle_frame q svc p m :
  let q' := snd (handle q svc p m) in
  service q' = service q /\
  datastore_BlockMessages q' = datastore_BlockMessages q /\
  datastore_Peers q' = datastore_Peers q.
Proof.
  cbv zeta. unfold handle.
  destruct (if online svc then _ else _) as [connected|e]; [|cbn; auto].
  destruct (negb _ || _); [|cbn; auto].
  destruct (datastore_Peers q !! p) as [contact|]; [|cbn; auto].
  destruct (bool_decide _); [|cbn; auto].
  unfold AddForInbox. destruct (AddForInbox_fault _ _ _); cbn; auto.
Qed.

(** The error of [handle] does not depend on the cafe outbox. *)
Lemma handle_error_stable q1 q2 svc p m :
  datastore_Peers q1 = datastore_Peers q2 ->
  fst (handle q1 svc p m) = fst (handle q2 svc p m).
Proof.
  intros Hp. unfold handle. rewrite Hp.
  destruct (if online svc then _ else _) as [connected|e]; [|reflexivity].
  destruct (negb _ || _); [|reflexivity].
  destruct (datastore_Peers q2 !! p) as [contact|]; [|reflexivity].
  destruct (bool_decide _); [|reflexivity].
  unfold AddForInbox. destruct (AddForInbox_fault _ _ _); reflexivity.
Qed.

Lemma worker_spec svc p msgs : forall q toDelete,
  let r := worker q svc p msgs toDelete in
  fst r = toDelete ++
          (Id <$> filter (fun m => fst (handle q svc p m) = None) msgs) /\
  service (snd r) = service q /\
  datastore_BlockMessages (snd r) = datastore_BlockMessages q /\
  datastore_Peers (snd r) = datastore_Peers q.
Proof.
  induction msgs as [|m rest IH]; intros q toDelete; cbv zeta; cbn.
  - rewrite app_nil_r. auto.
  - pose proof (handle_frame q svc p m) as (Hs & Hr & Hp).
    destruct (handle q svc p m) as [err q'] eqn:Hh. cbn in Hs, Hr, Hp.
    assert (Hst : filter (fun m => fst (handle q' svc p m) = None) rest
                  = filter (fun m => fst (handle q svc p m) = None) rest).
    { apply filter_ext_elem. intros x _.
      now rewrite (handle_error_stable q' q svc p x Hp). }
    destruct err as [e|].
    + destruct (decide _) as [Hn|_]; [discriminate|].
      destruct (IH q' toDelete) as (-> & -> & -> & ->). rewrite Hst. auto.
    + destruct (decide _) as [_|Hn]; [|contradiction].
      destruct (IH q' (toDelete ++ [Id m])) as (-> & -> & -> & ->).
      rewrite Hst, <- app_assoc. auto.
Qed.

Lemma group_by_peer_snoc msgs m :
  group_by_peer (msgs ++ [m]) =
    <[Peer m := default [] (group_by_peer msgs !! Peer m) ++ [m]]>
      (group_by_peer msgs).
Proof. unfold group_by_peer. now rewrite foldl_snoc. Qed.

(** The group of a peer is the sub-list of the messages for it. *)
Lemma group_by_peer_lookup msgs p g :
  group_by_peer msgs !! p = Some g <->
  g = filter (fun m => Peer m = p) msgs /\ g <> [].
Proof.
  revert g. induction msgs as [|m msgs IH] using rev_ind; intros g.
  - unfold group_by_peer. cbn. rewrite lookup_empty. split; [discriminate|].
    intros [-> Hne]. now contradiction Hne.
  - rewrite group_by_peer_snoc, filter_app, filter_cons, filter_nil.
    destruct (decide (Peer m = p)) as [<-|Hne].
    + rewrite lookup_insert_eq.
      assert (Hd : default [] (group_by_peer msgs !! Peer m)
                   = filter (fun m' => Peer m' = Peer m) msgs).
      { pose proof (fun g => proj1 (IH g)) as IH1.
        pose proof (fun g => proj2 (IH g)) as IH2. clear IH.
        destruct (filter _ msgs) as [|x l] eqn:Hf.
        - destruct (_ !! _) as [g'|]; [|reflexivity].
          now destruct (IH1 g' eq_refl) as [-> _].
        - now rewrite (IH2 (x :: l)). }
      rewrite Hd. split.
      * intros [= <-]. split; [reflexivity|]. now destruct (filter _ msgs).
      * now intros [-> _].
    + rewrite lookup_insert_ne by assumption. rewrite app_nil_r. apply IH.
Qed.

Lemma workers_fold svc (gl : list (string * list BlockMessage)) :
  forall q toDelete,
  let r := foldl (fun acc g => worker (snd acc) svc (fst g) (snd g) (fst acc))
                 (toDelete, q) gl in
  (forall id, id ∈ fst r <->
     id ∈ toDelete \/
     exists p g m, (p, g) ∈ gl /\ m ∈ g /\ Id m = id /\
                   fst (handle q svc p m) = None) /\
  service (snd r) = service q /\
  datastore_BlockMessages (snd r) = datastore_BlockMessages q /\
  datastore_Peers (snd r) = datastore_Peers q.
Proof.
  induction gl as [|[p g] gl IH]; intros q toDelete; cbv zeta; cbn.
  - split; [|auto]. intros id. split; [auto|].
    intros [?|(p & g & m & Hin & _)]; [assumption|]. now apply elem_of_nil in Hin.
  - pose proof (worker_spec svc p g q toDelete) as (Hw & Hs & Hr & Hp).
    destruct (worker q svc p g toDelete) as [td q1]. cbn in Hw, Hs, Hr, Hp.
    destruct (IH q1 td) as (Hid & -> & -> & ->). split; [|auto].
    intros id. rewrite Hid, Hw, elem_of_app, list_elem_of_fmap.
    setoid_rewrite list_elem_of_filter. setoid_rewrite elem_of_cons.
    assert (Hst : forall p' m', fst (handle q1 svc p' m') = fst (handle q svc p' m'))
      by (intros; now apply handle_error_stable).
    setoid_rewrite Hst. split.
    + intros [[?|(m & -> & Hh & Hm)]|(p' & g' & m & Hin & Hm & Hi & Hh)]; eauto 10.
    + intros [?|(p' & g' & m & [[= -> ->]|Hin] & Hm & Hi & Hh)]; eauto 10.
Qed.

(** After the workers of a page, [toDelete] holds the ids of the
    messages of the page whose [handle] returned no error. *)
Lemma workers_spec q svc msgs :
  let r := workers q svc (group_by_peer msgs) in
  (forall id, id ∈ fst r <->
     exists m, m ∈ msgs /\ Id m = id /\ handled q svc m = None) /\
  service (snd r) = service q /\
  datastore_BlockMessages (snd r) = datastore_BlockMessages q /\
  datastore_Peers (snd r) = datastore_Peers q.
Proof.
  cbv zeta. unfold workers.
  destruct (workers_fold svc (map_to_list (group_by_peer msgs)) q [])
    as (Hid & Hs & Hr & Hp).
  split; [|auto]. intros id. rewrite Hid. unfold handled. split.
  - intros [Hnil|(p & g & m & Hin & Hm & Hi & Hh)]; [now apply elem_of_nil in Hnil|].
    apply elem_of_map_to_list, group_by_peer_lookup in Hin as [-> _].
    apply list_elem_of_filter in Hm as [<- Hm]. eauto.
  - intros (m & Hm & Hi & Hh). right.
    exists (Peer m), (filter (fun m' => Peer m' = Peer m) msgs), m.
    split; [|split; [|auto]].
    + apply elem_of_map_to_list, group_by_peer_lookup. split; [reflexivity|].
      intros Hnil. assert (Hin : m ∈ filter (fun m' => Peer m' = Peer m) msgs)
        by now apply list_elem_of_filter.
      rewrite Hnil in Hin. now apply elem_of_nil in Hin.
    + now apply list_elem_of_filter.
Qed.

Lemma filter_all {A} (P : A -> Prop) `{!forall x, Decision (P x)} (l : list A) :
  (forall x, P x) -> filter P l = l.
Proof.
  intros HP. induction l as [|a l IH]; [reflexivity|].
  rewrite filter_cons, IH. destruct (decide (P a)) as [_|Hn]; [reflexivity|].
  contradiction (Hn (HP a)).
Qed.

Lemma delete_each_spec toDelete : forall rows,
  snd (delete_each rows toDelete) =
    filter (fun m => ~ (Id m ∈ toDelete /\
                        BlockMessages_Delete_fault (Id m) = None)) rows.
Proof.
  induction toDelete as [|id rest IH]; intros rows; cbn.
  - symmetry. apply filter_all. intros m [Hin _]. now apply elem_of_nil in Hin.
  - unfold BlockMessages_Delete.
    destruct (BlockMessages_Delete_fault id) as [e|] eqn:Hf.
    + rewrite IH. apply list_filter_iff. intros m. rewrite elem_of_cons.
      split.
      * intros Hn [[Heq|Hin] Hok]; [rewrite Heq in Hok; congruence|apply Hn; auto].
      * intros Hn [Hin Hok]. apply Hn. auto.
    + specialize (IH (filter (fun m => Id m <> id) rows)).
      destruct (delete_each _ rest) as [deleted rows'']. cbn in IH |- *.
      rewrite IH, list_filter_filter. apply list_filter_iff. intros m.
      rewrite elem_of_cons. split.
      * intros [Hn Hne] [[Heq|Hin] Hok]; [contradiction|apply Hn; auto].
      * intros Hn. split.
        -- intros [Hin Hok]. apply Hn. auto.
        -- intros Heq. apply Hn. rewrite Heq. auto.
Qed.

(** *** Pages *)

#[local] Instance id_le_trans : Transitive id_le.
Proof. intros a b c. unfold id_le. apply leb_trans. Qed.

#[local] Instance id_le_total : Total id_le.
Proof. intros a b. unfold id_le. apply String.leb_total. Qed.

Lemma page_length rows offset limit :
  length (BlockMessages_List rows offset limit) <= limit.
Proof. unfold BlockMessages_List. rewrite length_take. lia. Qed.

Lemma page_sorted rows offset limit :
  StronglySorted id_le (BlockMessages_List rows offset limit).
Proof.
  unfold BlockMessages_List.
  set (sorted := merge_sort id_le _).
  assert (Hs : StronglySorted id_le sorted)
    by (apply StronglySorted_merge_sort; apply _).
  rewrite <- (take_drop limit sorted) in Hs.
  now apply StronglySorted_app_1_l in Hs.
Qed.

Lemma page_elem rows offset limit m :
  m ∈ BlockMessages_List rows offset limit ->
  m ∈ rows /\ after offset m = true.
Proof.
  unfold BlockMessages_List. intros Hin.
  apply (subseteq_take limit) in Hin.
  rewrite merge_sort_Permutation in Hin.
  apply list_elem_of_filter in Hin. tauto.
Qed.

Lemma page_empty rows offset limit m :
  BlockMessages_List rows offset (S limit) = [] ->
  m ∈ rows -> after offset m = false.
Proof.
  unfold BlockMessages_List. intros Hnil Hin.
  destruct (after offset m) eqn:Ha; [exfalso|reflexivity].
  assert (Hm : m ∈ merge_sort id_le (filter (fun m => after offset m = true) rows)).
  { rewrite merge_sort_Permutation. now apply list_elem_of_filter. }
  destruct (merge_sort _ _) as [|x l]; [now apply elem_of_nil in Hm|discriminate].
Qed.

(** The last message of a page has the largest id of the page ... *)
Lemma page_last_max rows offset limit x m :
  last (BlockMessages_List rows offset limit) = Some x ->
  m ∈ BlockMessages_List rows offset limit ->
  id_le m x.
Proof.
  intros Hlast Hin. pose proof (page_sorted rows offset limit) as Hs.
  apply last_Some in Hlast as [l' Hl]. rewrite Hl in Hs, Hin.
  apply elem_of_app in Hin as [Hin|Hin].
  - eapply StronglySorted_app_1_elem_of; [exact Hs|exact Hin|]. now left.
  - apply list_elem_of_singleton in Hin as ->. unfold id_le. apply leb_iff. auto.
Qed.

(** ... and the messages left for later pages have ids at least as
    large. *)
Lemma page_rest rows offset limit x m :
  last (BlockMessages_List rows offset limit) = Some x ->
  m ∈ rows -> after offset m = true ->
  m ∉ BlockMessages_List rows offset limit ->
  id_le x m.
Proof.
  unfold BlockMessages_List. intros Hlast Hin Ha Hout.
  set (sorted := merge_sort id_le _) in *.
  assert (Hs : StronglySorted id_le sorted)
    by (apply StronglySorted_merge_sort; apply _).
  assert (Hm : m ∈ sorted).
  { unfold sorted. rewrite merge_sort_Permutation. now apply list_elem_of_filter. }
  rewrite <- (take_drop limit sorted) in Hs, Hm.
  apply elem_of_app in Hm as [Hm|Hm]; [contradiction|].
  eapply StronglySorted_app_1_elem_of; [exact Hs| |exact Hm].
  apply last_Some in Hlast as [l' ->]. apply elem_of_app. right. now left.
Qed.

Lemma filter_length_lt {A} (P Q : A -> Prop) `{!forall x, Decision (P x)}
  `{!forall x, Decision (Q x)} (l : list A) (x : A) :
  (forall y, P y -> Q y) -> x ∈ l -> Q x -> ~ P x ->
  length (filter P l) < length (filter Q l).
Proof.
  intros HPQ Hin Hq Hp.
  assert (Hle : forall l', length (filter P l') <= length (filter Q l')).
  { induction l' as [|a l' IH]; [reflexivity|]. rewrite !filter_cons.
    destruct (decide (P a)) as [Ha|Ha], (decide (Q a)) as [Hb|Hb]; cbn;
      try lia. exfalso. auto. }
  induction l as [|a l IH]; [now apply elem_of_nil in Hin|].
  rewrite !filter_cons. apply elem_of_cons in Hin as [<-|Hin].
  - destruct (decide (P x)); [contradiction|].
    destruct (decide (Q x)); [|contradiction]. cbn. specialize (Hle l). lia.
  - specialize (IH Hin).
    destruct (decide (P a)) as [Ha|Ha], (decide (Q a)) as [Hb|Hb]; cbn;
      try lia. exfalso. auto.
Qed.

Lemma NoDup_fmap_elem_inj {A B} (f : A -> B) (l : list A) x y :
  NoDup (f <$> l) -> x ∈ l -> y ∈ l -> f x = f y -> x = y.
Proof.
  induction l as [|a l IH]; intros Hnd Hx Hy Hf; [now apply elem_of_nil in Hx|].
  rewrite fmap_cons in Hnd. apply NoDup_cons in Hnd as [Hna Hnd].
  apply elem_of_cons in Hx as [->|Hx], Hy as [->|Hy]; auto.
  - exfalso. apply Hna. rewrite Hf. apply list_elem_of_fmap. eauto.
  - exfalso. apply Hna. rewrite <- Hf. apply list_elem_of_fmap. eauto.
Qed.

(** *** Flushing *)

Lemma removed_true q svc m :
  removed q svc m = true <->
  handled q svc m = None /\ BlockMessages_Delete_fault (Id m) = None.
Proof. unfold removed. rewrite andb_true_iff, !bool_decide_eq_true. tauto. Qed.

Lemma handled_stable q1 q2 svc m :
  datastore_Peers q1 = datastore_Peers q2 -> handled q1 svc m = handled q2 svc m.
Proof. unfold handled. apply handle_error_stable. Qed.

Lemma after_ltb offset m :
  offset <> "" -> after offset m = String.ltb offset (Id m).
Proof. unfold after. intros Hne. now rewrite bool_decide_eq_false_2. Qed.

Lemma batch_stop fuel q svc msgs :
  last msgs = None -> batch fuel q svc msgs = Some (q, [msgs]).
Proof. intros Hl. destruct fuel; cbn; now rewrite Hl. Qed.

Lemma batch_step fuel q svc msgs :
  batch (S fuel) q svc msgs =
    match last msgs with
    | None => Some (q, [msgs])
    | Some last_msg =>
      let '(toDelete, q1) := workers q svc (group_by_peer msgs) in
      let next :=
        BlockMessages_List (datastore_BlockMessages q1) (Id last_msg)
          blockFlushGroupSize in
      let '(_deleted, rows') :=
        delete_each (datastore_BlockMessages q1) toDelete in
      match batch fuel (set_BlockMessages q1 rows') svc next with
      | Some (q', pages) => Some (q', msgs :: pages)
      | None => None
      end
    end.
Proof. reflexivity. Qed.

Lemma batch_fuel_mono fuel : forall q svc msgs r,
  batch fuel q svc msgs = Some r -> batch (S fuel) q svc msgs = Some r.
Proof.
  induction fuel as [|fuel IH]; intros q svc msgs r.
  - cbn. destruct (last msgs); [discriminate|auto].
  - rewrite (batch_step fuel), (batch_step (S fuel)).
    destruct (last msgs) as [x|]; [|auto].
    destruct (workers _ _ _) as [toDelete q1].
    destruct (delete_each _ _) as [deleted rows']. cbv zeta.
    destruct (batch fuel _ _ _) as [[q' pages]|] eqn:Hb; [|discriminate].
    now rewrite (IH _ _ _ _ Hb).
Qed.

Lemma batch_fuel_le fuel fuel' q svc msgs r :
  fuel <= fuel' ->
  batch fuel q svc msgs = Some r -> batch fuel' q svc msgs = Some r.
Proof. induction 1; auto using batch_fuel_mono. Qed.

(** The pages alone need no more than non-empty ids: the calls of
    [batch] go through the pages of [rows0] as long as the rows after
    the current offset are those of [rows0]. *)
Lemma batch_pages svc rows0 :
  Forall (fun m => Id m <> "") rows0 ->
  forall fuel offset q,
    filter (fun m => after offset m = true) (datastore_BlockMessages q)
      = filter (fun m => after offset m = true) rows0 ->
    length (filter (fun m => after offset m = true) rows0) < fuel ->
    exists q' pages,
      batch fuel q svc (BlockMessages_List rows0 offset blockFlushGroupSize)
        = Some (q', pages) /\
      paging rows0 offset pages.
Proof.
  intros Hne. rewrite Forall_forall in Hne.
  induction fuel as [|fuel IH]; intros offset q Hrows Hfuel; [lia|].
  set (page := BlockMessages_List rows0 offset blockFlushGroupSize).
  destruct (last page) as [x|] eqn:Hlast.
  2: { rewrite (batch_stop _ _ _ _ Hlast). apply last_None in Hlast.
       exists q, [page]. rewrite Hlast. split; [reflexivity|].
       now apply paging_stop. }
  assert (Hx : x ∈ page).
  { apply last_Some in Hlast as [l' ->]. apply elem_of_app. right. now left. }
  destruct (page_elem _ _ _ _ Hx) as [Hx0 Hxa].
  assert (Hxne : Id x <> "") by now apply Hne.
  assert (Ha : forall m, after (Id x) m = true -> after offset m = true).
  { intros m. rewrite (after_ltb (Id x)) by assumption. intros Hlt.
    unfold after in *. destruct (bool_decide (offset = "")); [reflexivity|].
    cbn in *. eapply ltb_trans; eassumption. }
  assert (Hb : forall m, m ∈ page -> after (Id x) m = false).
  { intros m Hm. rewrite after_ltb by assumption.
    apply leb_not_ltb. exact (page_last_max _ _ _ _ _ Hlast Hm). }
  assert (Hcut : forall rows,
            filter (fun m => after (Id x) m = true)
                   (filter (fun m => after offset m = true) rows)
            = filter (fun m => after (Id x) m = true) rows).
  { intros rows. apply list_filter_filter_l. exact Ha. }
  rewrite batch_step. fold page. rewrite Hlast.
  pose proof (workers_spec q svc page) as (Htd & Hs1 & Hr1 & Hp1).
  destruct (workers q svc (group_by_peer page)) as [toDelete q1].
  cbn in Htd, Hs1, Hr1, Hp1.
  pose proof (delete_each_spec toDelete (datastore_BlockMessages q1)) as Hdel.
  destruct (delete_each (datastore_BlockMessages q1) toDelete) as [deleted rows'].
  cbn in Hdel. cbv zeta.
  assert (Hnext : BlockMessages_List (datastore_BlockMessages q1) (Id x)
                    blockFlushGroupSize
                  = BlockMessages_List rows0 (Id x) blockFlushGroupSize).
  { unfold BlockMessages_List. now rewrite Hr1, <- Hcut, Hrows, Hcut. }
  rewrite Hnext.
  destruct (IH (Id x) (set_BlockMessages q1 rows')) as (q' & pages & Hrun & Hpg).
  - cbn. rewrite Hdel, Hr1, list_filter_filter.
    rewrite <- (Hcut rows0), <- Hrows, Hcut.
    apply filter_ext_elem. intros m _. split; [tauto|]. intros Hma.
    split; [assumption|]. intros [Hin _].
    apply Htd in Hin as (m' & Hm' & Hid & _).
    pose proof (Hb m' Hm') as Hf. rewrite after_ltb in Hf, Hma by assumption.
    congruence.
  - assert (length (filter (fun m => after (Id x) m = true) rows0)
            < length (filter (fun m => after offset m = true) rows0)); [|lia].
    apply (filter_length_lt _ _ rows0 x); auto.
    rewrite (Hb x Hx). discriminate.
  - exists q', (page :: pages). rewrite Hrun. split; [reflexivity|].
    now apply (paging_step rows0 offset x).
Qed.

(** One call of [batch] on the page that starts after [offset], when
    the rows up to [offset] have been dealt with: the call and those it
    makes go through the remaining pages of [rows0], and the table is
    left with the rows that could not be removed. *)
Lemma batch_run q0 svc rows0 :
  well_keyed rows0 ->
  forall fuel offset q,
    datastore_Peers q = datastore_Peers q0 ->
    datastore_BlockMessages q =
      filter (fun m => after offset m = true \/ removed q0 svc m = false) rows0 ->
    length (filter (fun m => after offset m = true) rows0) < fuel ->
    exists q' pages,
      batch fuel q svc (BlockMessages_List rows0 offset blockFlushGroupSize)
        = Some (q', pages) /\
      paging rows0 offset pages /\
      datastore_BlockMessages q' =
        filter (fun m => removed q0 svc m = false) rows0 /\
      datastore_Peers q' = datastore_Peers q0 /\
      service q' = service q.
Proof.
  intros [Hne Hnd]. rewrite Forall_forall in Hne.
  induction fuel as [|fuel IH]; intros offset q Hp Hrows Hfuel; [lia|].
  set (page := BlockMessages_List rows0 offset blockFlushGroupSize).
  destruct (last page) as [x|] eqn:Hlast.
  2: { rewrite (batch_stop _ _ _ _ Hlast). apply last_None in Hlast.
       exists q, [page]. rewrite Hlast. split; [reflexivity|].
       split; [now apply paging_stop|]. split; [|auto].
       rewrite Hrows. apply filter_ext_elem. intros m Hm.
       rewrite (page_empty rows0 offset _ m Hlast Hm). split; [|auto].
       intros [Hf|Hr]; [discriminate|assumption]. }
  (* the page is not empty: [x] is its last message *)
  assert (Hx : x ∈ page).
  { apply last_Some in Hlast as [l' ->]. apply elem_of_app. right. now left. }
  destruct (page_elem _ _ _ _ Hx) as [Hx0 Hxa].
  assert (Hxne : Id x <> "") by now apply Hne.
  assert (Ha : forall m, after (Id x) m = true -> after offset m = true).
  { intros m. rewrite (after_ltb (Id x)) by assumption. intros Hlt.
    unfold after in *. destruct (bool_decide (offset = "")); [reflexivity|].
    cbn in *. eapply ltb_trans; eassumption. }
  assert (Hb : forall m, m ∈ page -> after (Id x) m = false).
  { intros m Hm. rewrite after_ltb by assumption.
    apply leb_not_ltb. exact (page_last_max _ _ _ _ _ Hlast Hm). }
  assert (Hc : forall m, m ∈ rows0 -> after offset m = true -> m ∉ page ->
                         after (Id x) m = true).
  { intros m Hm Hma Hout. rewrite after_ltb by assumption.
    pose proof (page_rest _ _ _ _ _ Hlast Hm Hma Hout) as Hle.
    apply leb_iff in Hle as [Hlt|Heq]; [assumption|].
    contradiction Hout.
    now rewrite <- (NoDup_fmap_elem_inj Id rows0 x m Hnd Hx0 Hm Heq). }
  cbn [batch]. fold page. rewrite Hlast.
  pose proof (workers_spec q svc page) as (Htd & Hs1 & Hr1 & Hp1).
  destruct (workers q svc (group_by_peer page)) as [toDelete q1].
  cbn in Htd, Hs1, Hr1, Hp1.
  pose proof (delete_each_spec toDelete (datastore_BlockMessages q1)) as Hdel.
  destruct (delete_each (datastore_BlockMessages q1) toDelete) as [deleted rows'].
  cbn in Hdel.
  (* the next page is a page of [rows0] *)
  assert (Hnext : BlockMessages_List (datastore_BlockMessages q1) (Id x)
                    blockFlushGroupSize
                  = BlockMessages_List rows0 (Id x) blockFlushGroupSize).
  { unfold BlockMessages_List. rewrite Hr1, Hrows, list_filter_filter.
    do 2 f_equal. apply filter_ext_elem. intros m _. split; [tauto|]. auto. }
  rewrite Hnext.
  (* the rows up to [Id x] have been dealt with *)
  assert (Hrows' : rows' =
            filter (fun m => after (Id x) m = true \/ removed q0 svc m = false)
                   rows0).
  { rewrite Hdel, Hr1, Hrows, list_filter_filter.
    apply filter_ext_elem. intros m Hm.
    assert (Hin : Id m ∈ toDelete /\ BlockMessages_Delete_fault (Id m) = None
                  <-> m ∈ page /\ removed q0 svc m = true).
    { rewrite Htd, removed_true. split.
      - intros [(m' & Hm' & Hid & Hh) Hok].
        destruct (page_elem _ _ _ _ Hm') as [Hm'0 _].
        rewrite (NoDup_fmap_elem_inj Id rows0 m' m Hnd Hm'0 Hm Hid) in *.
        rewrite <- (handled_stable q q0) by assumption. auto.
      - intros [Hmp [Hh Hok]]. split; [|assumption].
        exists m. rewrite (handled_stable q q0) by assumption. auto. }
    rewrite Hin. destruct (removed q0 svc m) eqn:Hr.
    - split.
      + intros [Hn [Hma|Hf]]; [|discriminate]. left.
        apply Hc; [assumption..|]. intros Hmp. apply Hn. auto.
      + intros [Hma|Hf]; [|discriminate]. split; [|left; now apply Ha].
        intros [Hmp _]. rewrite (Hb m Hmp) in Hma. discriminate.
    - split; [auto|]. intros _. split; [|auto]. intros [_ Hf]. discriminate. }
  destruct (IH (Id x) (set_BlockMessages q1 rows')) as (q' & pages & Hrun & Hpg & Hfin & Hp' & Hs').
  - exact (eq_trans Hp1 Hp).
  - exact Hrows'.
  - assert (length (filter (fun m => after (Id x) m = true) rows0)
            < length (filter (fun m => after offset m = true) rows0)); [|lia].
    apply (filter_length_lt _ _ rows0 x); auto.
    rewrite (Hb x Hx). discriminate.
  - exists q', (page :: pages). rewrite Hrun. split; [reflexivity|].
    split; [now apply (paging_step rows0 offset x)|].
    split; [assumption|]. split; [assumption|]. now rewrite Hs'.
Qed.

Lemma paging_pages rows offset pages :
  paging rows offset pages ->
  Forall (fun page => length page <= blockFlushGroupSize /\
                      StronglySorted id_le page) pages.
Proof.
  induction 1 as [offset Hnil|offset m pages Hlast Hp IH].
  - repeat constructor.
  - constructor; [|assumption]. split; [apply page_length|apply page_sorted].
Qed.

Lemma paging_last rows offset pages :
  paging rows offset pages -> last pages = Some [].
Proof.
  induction 1 as [offset Hnil|offset m pages Hlast Hp IH]; [reflexivity|].
  destruct pages; [inversion Hp|exact IH].
Qed.

Lemma Flush_run q svc :
  service q = Some svc ->
  well_keyed (datastore_BlockMessages q) ->
  exists q' pages,
    (forall fuel, length (datastore_BlockMessages q) < fuel ->
                  Flush fuel q = Some (q', pages)) /\
    paging (datastore_BlockMessages q) "" pages /\
    datastore_BlockMessages q' =
      filter (fun m => removed q svc m = false) (datastore_BlockMessages q).
Proof.
  intros Hs Hw.
  destruct (batch_run q svc (datastore_BlockMessages q) Hw
              (S (length (datastore_BlockMessages q))) "" q)
    as (q' & pages & Hrun & Hpg & Hfin & _).
  - reflexivity.
  - symmetry. apply filter_all. intros m. now left.
  - pose proof (length_filter (fun m => after "" m = true)
                  (datastore_BlockMessages q)). lia.
  - exists q', pages. split; [|auto]. intros fuel Hfuel.
    unfold Flush. rewrite Hs. eapply batch_fuel_le; [|exact Hrun]. lia.
Qed.

(** While the node is not started, [Flush] returns at once. *)
Lemma Flush_not_started fuel q :
  service q = None -> Flush fuel q = Some (q, []).
Proof. intros Hs. unfold Flush. now rewrite Hs. Qed.



End OutboxProperties.

(** ** The outbox on concrete queues *)

Section OutboxRuns.

Import Service.
Import Outbox.

#[local] Existing Instance demo_Transport.

Lemma demo_outbox_well_keyed : well_keyed (datastore_BlockMessages demo_outbox).
Proof.
  split.
  - repeat constructor; discriminate.
  - apply (bool_decide_unpack _). vm_compute. exact I.
Defined.

Lemma demo_backlog_well_keyed : well_keyed (datastore_BlockMessages demo_backlog).
Proof.
  split.
  - repeat constructor; discriminate.
  - apply (bool_decide_unpack _). vm_compute. exact I.
Defined.




End OutboxRuns.

(** ** Further properties of the handlers *)

Section HandlerFrames.

Import Service.

Context `{L : Libp2p} `{P : Protobuf} `{I : Ipfs} `{H : Host}.

Implicit Types (s : TextileService) (pid : PeerID) (pmes : Message)
  (opts : options).

(** X1.  A relayed message of a type the dispatcher does not know is
    accepted and ignored: [HandlerForMsgType] has no handler for it,
    and [handleOfflineRelay] then returns [(nil, nil)] and changes
    nothing (lines 34-35 and 192-196). *)
Theorem handleOfflineRelay_unknown_type depth s pid pmes opts id inner tag :
  authenticated s pmes id inner ->
  MessageType inner = Message_other tag ->
  HandlerForMsgType depth (MessageType inner) = None /\
  handleOfflineRelay (S depth) s pid pmes opts = Some (Return None None s).
Proof.
  intros Ha Ht.
  assert (Hn : HandlerForMsgType depth (MessageType inner) = None)
    by now rewrite Ht.
  split; [exact Hn|].
  now rewrite (handleOfflineRelay_authenticated _ _ _ _ _ _ _ Ha), Hn.
Qed.

(** X2.  A relay envelope inside a relay envelope is unwrapped again
    through the dispatcher: the innermost message is handled on behalf
    of its own signer, and the outer call returns what the inner relay
    returns, the handler's result less its reply. *)
Theorem handleOfflineRelay_nested
  depth s pid pmes opts id1 inner1 id2 inner2 h o :
  authenticated s pmes id1 inner1 ->
  MessageType inner1 = Message_OFFLINE_RELAY ->
  authenticated s inner1 id2 inner2 ->
  HandlerForMsgType depth (MessageType inner2) = Some h ->
  h s id2 inner2 (Some true) = Some o ->
  handleOfflineRelay (S (S depth)) s pid pmes opts = Some (relayed o) /\
  handleOfflineRelay (S depth) s id1 inner1 (Some true) = Some (relayed o).
Proof.
  intros Ha1 Ht Ha2 Hh Ho.
  assert (Hin : handleOfflineRelay (S depth) s id1 inner1 (Some true)
                = Some (relayed o))
    by now rewrite (handleOfflineRelay_authenticated _ _ _ _ _ _ _ Ha2), Hh, Ho.
  split; [|exact Hin].
  rewrite (handleOfflineRelay_authenticated _ _ _ _ _ _ _ Ha1), Ht.
  change (HandlerForMsgType (S depth) Message_OFFLINE_RELAY)
    with (Some (handleOfflineRelay (S depth))).
  cbv beta iota. rewrite Hin. cbn. now destruct o.
Qed.

(** X3.  Unless the relayed envelope passes every check of lines 157-189,
    [handleOfflineRelay] calls no handler: it returns at once, with no
    reply and the service state it started from, or panics on a
    verified envelope that carries no message. *)
Theorem handleOfflineRelay_unauthenticated depth s pid pmes opts :
  (forall id inner, ~ authenticated s pmes id inner) ->
  exists o,
    handleOfflineRelay (S depth) s pid pmes opts = Some o /\
    outcome_state o = s /\
    (o = Panic s \/ exists err, o = Return None err s).
Proof.
  intros Hno. cbn [handleOfflineRelay]. unfold fails.
  destruct (Payload pmes) as [payload|] eqn:Hp; [|eauto 10].
  destruct (Decrypt _ _) as [plaintext|e] eqn:Hd; [|eauto 10].
  destruct (Unmarshal_Envelope plaintext) as [env|e] eqn:He; [|eauto 10].
  destruct (proto_Marshal _) as [ser|e] eqn:Hm; [|eauto 10].
  destruct (UnmarshalPublicKey _) as [pubkey|e] eqn:Hk; [|eauto 10].
  destruct (Verify pubkey ser _) as [valid err] eqn:Hv.
  destruct (bool_decide (err <> None) || negb valid) eqn:Hbad; [eauto 10|].
  destruct (IDFromPublicKey pubkey) as [id|e] eqn:Hi; [|eauto 10].
  destruct (Env_Message env) as [inner|] eqn:Hin; [|eauto 10].
  exfalso. apply (Hno id inner).
  apply orb_false_iff in Hbad as [Herr Hvalid].
  apply bool_decide_eq_false in Herr. apply negb_false_iff in Hvalid.
  assert (err = None) as -> by (destruct err; [exfalso; apply Herr|]; easy).
  subst valid. exists payload, plaintext, env, ser, pubkey.
  rewrite Hin. auto 10.
Qed.

(** X4.  [handleOfflineAck] never replies and never panics.  It can only
    remove the pointer kept under the sender's own id: every other
    pointer and every other part of the service state is left as it
    was, and when it returns an error nothing at all has changed. *)
Theorem handleOfflineAck_frame s pid pmes opts :
  exists err s',
    handleOfflineAck s pid pmes opts = Return None err s' /\
    self s' = self s /\
    node_PrivateKey s' = node_PrivateKey s /\
    node_Blocks s' = node_Blocks s /\
    threads s' = threads s /\
    datastore_Peers s' = datastore_Peers s /\
    (forall key, key <> Pretty pid ->
       datastore_Pointers s' !! key = datastore_Pointers s !! key) /\
    (err <> None -> s' = s).
Proof.
  unfold handleOfflineAck, fails.
  destruct (Payload pmes) as [payload|]; [|eexists _, _; repeat split; eauto].
  destruct (IDB58Decode _); [|eexists _, _; repeat split; eauto].
  destruct (Pointers_Get s pid) as [pointer|]; [|eexists _, _; repeat split; eauto].
  destruct (CancelId pointer) as [cancel|]; [|eexists _, _; repeat split; eauto].
  destruct (negb _); [eexists _, _; repeat split; eauto|].
  unfold Pointers_Delete.
  destruct (Pointers_Delete_fault pid) as [e|];
    [eexists _, _; repeat split; eauto|].
  eexists _, _. repeat split; try reflexivity.
  - intros key Hne. cbn. now rewrite lookup_delete_ne.
  - intros Herr. now contradiction Herr.
Qed.

(** X5.  The peer id carried by an OFFLINE_ACK is decoded and then not
    used: two acknowledgements whose payloads both decode are handled
    alike, whatever ids they name.  And when no pointer is kept for
    the sender, the handler returns the error of the lookup and
    changes nothing. *)
Theorem handleOfflineAck_payload_unused
  s pid pmes opts payload decoded :
  Payload pmes = Some payload ->
  IDB58Decode (string_of_list_byte (Value payload)) = Ok decoded ->
  (forall pmes' opts' payload' decoded',
     Payload pmes' = Some payload' ->
     IDB58Decode (string_of_list_byte (Value payload')) = Ok decoded' ->
     handleOfflineAck s pid pmes' opts' = handleOfflineAck s pid pmes opts) /\
  (forall e, Pointers_Get s pid = Err e ->
     handleOfflineAck s pid pmes opts = Return None (Some e) s) /\
  (datastore_Pointers s !! Pretty pid = None ->
     exists e, handleOfflineAck s pid pmes opts = Return None (Some e) s).
Proof.
  intros Hp Hd. unfold handleOfflineAck. rewrite Hp, Hd. repeat split.
  - intros pmes' opts' payload' decoded' Hp' Hd'. now rewrite Hp', Hd'.
  - intros e ->. reflexivity.
  - intros Hnone. unfold Pointers_Get. rewrite Hnone. eexists. reflexivity.
Qed.

(** X6.  [handleBlock] never replies and never panics; it can only append
    one block to the node's blocks, and when it returns an error the
    service state is unchanged. *)
Theorem handleBlock_frame s pid pmes opts :
  exists err s',
    handleBlock s pid pmes opts = Return None err s' /\
    (s' = s \/ exists block, s' = set_Blocks s (node_Blocks s ++ [block])) /\
    (err <> None -> s' = s).
Proof.
  unfold handleBlock, fails.
  destruct (Payload pmes) as [payload|]; [|eexists _, _; eauto].
  destruct (UnmarshalAny_Block payload) as [pbblock|]; [|eexists _, _; eauto].
  destruct (cid_Decode _) as [id|]; [|eexists _, _; eauto].
  destruct (NewBlockWithCid _ id) as [block|]; [|eexists _, _; eauto].
  unfold AddBlock. destruct (AddBlock_fault block) as [e|];
    [eexists _, _; eauto|].
  eexists _, _. split; [reflexivity|]. split; [eauto|].
  intros Herr. now contradiction Herr.
Qed.

(** X7.  A BLOCK message whose payload unmarshals, whose cid decodes and
    whose block is accepted is stored: the handler returns [(nil,
    nil)], and the block store then reports the block's cid as held. *)
Theorem handleBlock_stores s pid pmes opts payload pbblock id block :
  Payload pmes = Some payload ->
  UnmarshalAny_Block payload = Ok pbblock ->
  cid_Decode (pb_Cid pbblock) = Ok id ->
  NewBlockWithCid (pb_RawData pbblock) id = Ok block ->
  AddBlock_fault block = None ->
  let s' := set_Blocks s (node_Blocks s ++ [block]) in
  handleBlock s pid pmes opts = Return None None s' /\
  (Blockstore_fault (Block_Cid block) = None ->
   Blockstore_Has s' (Block_Cid block) = (true, None)).
Proof.
  intros Hp Hu Hc Hn Ha. cbv zeta. split.
  - unfold handleBlock, AddBlock. now rewrite Hp, Hu, Hc, Hn, Ha.
  - intros Hf. unfold Blockstore_Has. rewrite Hf. cbn.
    rewrite bool_decide_eq_true_2; [reflexivity|].
    rewrite map_app. apply elem_of_app. right. cbn. now left.
Qed.

Lemma handleStore_need_filter s ids :
  handleStore_need s ids =
    map cid_String
      (filter (fun c => Blockstore_fault c <> None \/ c ∉ held_cids s)
              (decoded_cids ids)).
Proof.
  induction ids as [|id rest IH]; cbn; [reflexivity|].
  destruct (cid_Decode id) as [c|e]; [|exact IH].
  rewrite filter_cons. unfold Blockstore_Has, held_cids in *.
  destruct (Blockstore_fault c) as [e|] eqn:Hf; cbn.
  - destruct (decide _) as [_|Hn]; [now rewrite IH|].
    contradiction Hn. now left.
  - destruct (decide (c ∈ map Block_Cid (node_Blocks s))) as [Hin|Hout].
    + rewrite bool_decide_eq_true_2 by assumption. cbn.
      destruct (decide _) as [[Hx|Hx]|_]; [congruence|contradiction|exact IH].
    + rewrite bool_decide_eq_false_2 by assumption. cbn.
      destruct (decide _) as [_|Hn]; [now rewrite IH|].
      contradiction Hn. now right.
Qed.

(** X8.  [handleStore] asks for a cid exactly when the block store does
    not answer that it holds it: a lookup that fails counts as a
    missing block, and its error is not returned.  Strings that are
    not cids are skipped, order and repetitions of the input are kept.
    The only error after the payload is unpacked is that of
    marshalling the reply, returned with an ERROR message. *)
Theorem handleStore_need_faults s pid pmes opts payload cList :
  Payload pmes = Some payload ->
  UnmarshalAny_CidList payload = Ok cList ->
  let need :=
    map cid_String
      (filter (fun c => Blockstore_fault c <> None \/ c ∉ held_cids s)
              (decoded_cids (Cids cList))) in
  (forall payload',
     MarshalAny_CidList {| Cids := need |} = Ok payload' ->
     handleStore s pid pmes opts =
       Return (Some {| MessageType := Message_STORE; Payload := Some payload' |})
              None s) /\
  (forall e,
     MarshalAny_CidList {| Cids := need |} = Err e ->
     handleStore s pid pmes opts =
       Return (Some (errorResponse "error marshalling response")) (Some e) s).
Proof.
  intros Hp Hu. cbv zeta. unfold handleStore.
  rewrite Hp, Hu, handleStore_need_filter.
  split; [intros payload' ->|intros e ->]; reflexivity.
Qed.

(** X9.  Storing a block and then negotiating: once [handleBlock] has
    stored a block, [handleStore] on the new state asks for the cids
    it asked for before, except the cid of that block. *)
Theorem handleStore_after_handleBlock
  s pid pmes opts payload pbblock id block ids :
  Payload pmes = Some payload ->
  UnmarshalAny_Block payload = Ok pbblock ->
  cid_Decode (pb_Cid pbblock) = Ok id ->
  NewBlockWithCid (pb_RawData pbblock) id = Ok block ->
  AddBlock_fault block = None ->
  Blockstore_fault (Block_Cid block) = None ->
  exists s',
    handleBlock s pid pmes opts = Return None None s' /\
    handleStore_need s' ids =
      map cid_String
        (filter (fun c => c <> Block_Cid block)
           (filter (fun c => Blockstore_fault c <> None \/ c ∉ held_cids s)
                   (decoded_cids ids))).
Proof.
  intros Hp Hu Hc Hn Ha Hf.
  exists (set_Blocks s (node_Blocks s ++ [block])). split.
  - unfold handleBlock, AddBlock. now rewrite Hp, Hu, Hc, Hn, Ha.
  - rewrite handleStore_need_filter, list_filter_filter. f_equal.
    apply list_filter_iff. intros c. unfold held_cids. cbn.
    rewrite map_app, elem_of_app. cbn. rewrite list_elem_of_singleton.
    split.
    + intros [Hx|Hx]; (split; [intros ->|]).
      * congruence.
      * now left.
      * apply Hx. now right.
      * right. intros Hin. apply Hx. now left.
    + intros [Hne [Hx|Hx]]; [now left|right]. intros [Hin|Heq]; auto.
Qed.

(** X10.  [handleStore] and [handleError] only read: they never panic and
    they leave the service state as it is, whatever they are given.
    [handleError] never replies, and [handleStore] replies whenever
    the payload is not nil. *)
Theorem handleStore_handleError_read_only s pid pmes opts :
  (exists reply err,
     handleStore s pid pmes opts = Return reply err s /\
     (Payload pmes <> None -> reply <> None)) /\
  (exists err, handleError s pid pmes opts = Return None err s).
Proof.
  unfold handleStore, handleError, fails. split.
  - destruct (Payload pmes) as [payload|];
      [|eexists _, _; split; [reflexivity|]; intros Hn; now contradiction Hn].
    destruct (UnmarshalAny_CidList payload) as [cList|];
      [|eexists _, _; split; [reflexivity|discriminate]].
    destruct (MarshalAny_CidList _);
      eexists _, _; (split; [reflexivity|discriminate]).
  - destruct (Payload pmes) as [payload|]; [|eauto].
    destruct (UnmarshalAny_Error payload); eauto.
Qed.

(** *** Invitations *)

Lemma find_snoc_fresh {A} (f : A -> bool) (l : list A) (x : A) :
  List.find f l = None -> f x = true -> List.find f (l ++ [x]) = Some x.
Proof.
  intros Hl Hx. induction l as [|a l IH]; cbn in *; [now rewrite Hx|].
  destruct (f a); [discriminate|auto].
Qed.

Lemma handleThreadBlock_invitation s pid pmes opts signed block :
  invitation s pmes signed block ->
  handleThreadBlock s pid pmes opts =
    handleThreadBlock_switch s signed block None (handleThreadBlock_apply signed).
Proof.
  intros (payload & Hp & Hs & Hb & _ & Hg & _).
  unfold handleThreadBlock. now rewrite Hp, Hs, Hb, Hg.
Qed.

Lemma handleThreadBlock_switch_created s signed block sk thrd k :
  Type_ block = ThreadBlock_INVITE ->
  Target block = Pretty (self s) ->
  invitation_key s signed block sk ->
  newThread (ThreadName signed) sk = Ok thrd ->
  let s1 := set_threads s (threads s ++ [thrd]) in
  handleThreadBlock_switch s signed block None k =
    match inviter_peer s1 signed thrd with
    | Err e => fails e s1
    | Ok newPeer =>
      match Peers_Add_fault newPeer with
      | Some e => fails e s1
      | None => k (Some thrd) (set_Peers s1 (datastore_Peers s1 ++ [newPeer]))
      end
    end.
Proof.
  intros Ht Htg (skb & Hd & Hk & Hv) Hn. cbv zeta.
  unfold handleThreadBlock_switch, addThread, inviter_peer, Peers_Add.
  rewrite Ht, Htg, bool_decide_eq_true_2 by reflexivity. cbn.
  rewrite Hd, Hk, Hv. cbn. rewrite Hn.
  destruct (UnmarshalPublicKey _) as [ppk|]; [|reflexivity].
  destruct (PubKey_Bytes ppk) as [ppkb|]; [|reflexivity].
  destruct (IDFromPublicKey ppk) as [peerId|]; [|reflexivity].
  now destruct (Peers_Add_fault _).
Qed.

(** X11.  An INVITE that passes every check is admitted: the new thread is
    appended to the thread registry, the inviter is appended to the
    peer table as a peer of that thread, and the block is then applied
    to the new thread from that state. *)
Theorem handleThreadBlock_INVITE_admitted
  s pid pmes opts signed block sk thrd newPeer :
  invitation s pmes signed block ->
  invitation_key s signed block sk ->
  newThread (ThreadName signed) sk = Ok thrd ->
  let s1 := set_threads s (threads s ++ [thrd]) in
  inviter_peer s1 signed thrd = Ok newPeer ->
  Peers_Add_fault newPeer = None ->
  let s2 := set_Peers s1 (datastore_Peers s ++ [newPeer]) in
  Peer_ThreadId newPeer = Thread_Id thrd /\
  handleThreadBlock s pid pmes opts =
    (let '(err, s') := Thread_HandleBlock thrd (Id signed) s2 in
     Return None err s').
Proof.
  intros Hi Hk Hn s1 Hp Hf s2.
  pose proof Hi as (payload & _ & _ & _ & Ht & _ & Htg). split.
  - unfold inviter_peer in Hp.
    destruct (UnmarshalPublicKey _) as [ppk|]; [|discriminate].
    destruct (PubKey_Bytes ppk) as [ppkb|]; [|discriminate].
    destruct (IDFromPublicKey ppk) as [peerId|]; [|discriminate].
    now injection Hp as <-.
  - rewrite (handleThreadBlock_invitation _ _ _ _ _ _ Hi).
    rewrite (handleThreadBlock_switch_created _ _ _ sk thrd _ Ht Htg Hk Hn).
    fold s1. rewrite Hp, Hf. reflexivity.
Qed.

(** X12.  The inviter is recorded after the thread is created, and a
    failure there is not undone: when the issuer's key does not yield
    a peer record, or the peer table refuses the insert, the handler
    returns that error and leaves the new thread in the registry,
    without its inviter. *)
Theorem handleThreadBlock_INVITE_thread_without_inviter
  s pid pmes opts signed block sk thrd :
  invitation s pmes signed block ->
  invitation_key s signed block sk ->
  newThread (ThreadName signed) sk = Ok thrd ->
  let s1 := set_threads s (threads s ++ [thrd]) in
  (forall e, inviter_peer s1 signed thrd = Err e ->
     handleThreadBlock s pid pmes opts = Return None (Some e) s1) /\
  (forall newPeer e,
     inviter_peer s1 signed thrd = Ok newPeer ->
     Peers_Add_fault newPeer = Some e ->
     handleThreadBlock s pid pmes opts = Return None (Some e) s1) /\
  threads s1 = threads s ++ [thrd] /\
  datastore_Peers s1 = datastore_Peers s.
Proof.
  intros Hi Hk Hn s1.
  pose proof Hi as (payload & _ & _ & _ & Ht & _ & Htg).
  rewrite (handleThreadBlock_invitation _ _ _ _ _ _ Hi).
  rewrite (handleThreadBlock_switch_created _ _ _ sk thrd _ Ht Htg Hk Hn).
  fold s1. repeat split.
  - intros e ->. reflexivity.
  - intros newPeer e -> ->. reflexivity.
Qed.

(** X13.  Before the thread is created, every failure of an invite leaves
    the service state untouched: a target key that does not decrypt or
    is no key, a signature that does not verify under that key, a
    thread that cannot be created. *)
Theorem handleThreadBlock_INVITE_not_admitted
  s pid pmes opts signed block :
  invitation s pmes signed block ->
  (forall e,
     Decrypt (node_PrivateKey s) (TargetKey block) = Err e ->
     handleThreadBlock s pid pmes opts = Return None (Some e) s) /\
  (forall skb e,
     Decrypt (node_PrivateKey s) (TargetKey block) = Ok skb ->
     UnmarshalPrivateKey skb = Err e ->
     handleThreadBlock s pid pmes opts = Return None (Some e) s) /\
  (forall skb sk good err,
     Decrypt (node_PrivateKey s) (TargetKey block) = Ok skb ->
     UnmarshalPrivateKey skb = Ok sk ->
     Verify (GetPublic sk) (Data signed) (Signature signed) = (good, err) ->
     good = false \/ err <> None ->
     handleThreadBlock s pid pmes opts =
       Return None (Some (errors_New "bad signature")) s) /\
  (forall sk e,
     invitation_key s signed block sk ->
     newThread (ThreadName signed) sk = Err e ->
     handleThreadBlock s pid pmes opts = Return None (Some e) s).
Proof.
  intros Hi. pose proof Hi as (payload & _ & _ & _ & Ht & _ & Htg).
  rewrite (handleThreadBlock_invitation _ _ _ _ _ _ Hi).
  unfold handleThreadBlock_switch, addThread.
  rewrite Ht, Htg, bool_decide_eq_true_2 by reflexivity. cbn.
  repeat split.
  - intros e ->. reflexivity.
  - intros skb e -> ->. reflexivity.
  - intros skb sk good err -> -> -> [->|Herr].
    + now rewrite orb_true_r.
    + now rewrite bool_decide_eq_true_2.
  - intros sk e (skb & -> & -> & ->) Hn. cbn. now rewrite Hn.
Qed.

(** X14.  A replayed invite is refused.  When an admitted invite created
    the thread under the id it announced, and applying the block kept
    the thread registry, handling the same message again fails with
    "thread exists" and changes nothing. *)
Theorem handleThreadBlock_INVITE_replay
  s pid pmes opts signed block sk thrd newPeer err s' :
  invitation s pmes signed block ->
  invitation_key s signed block sk ->
  newThread (ThreadName signed) sk = Ok thrd ->
  let s1 := set_threads s (threads s ++ [thrd]) in
  inviter_peer s1 signed thrd = Ok newPeer ->
  Peers_Add_fault newPeer = None ->
  Thread_Id thrd = ThreadId signed ->
  Thread_HandleBlock thrd (Id signed)
    (set_Peers s1 (datastore_Peers s ++ [newPeer])) = (err, s') ->
  threads s' = threads s1 ->
  handleThreadBlock s pid pmes opts = Return None err s' /\
  handleThreadBlock s' pid pmes opts =
    Return None (Some (errors_New "thread exists")) s'.
Proof.
  intros Hi Hk Hn s1 Hp Hf Hid Hb Hth.
  pose proof Hi as (payload & Hpay & Hs & Hbl & Ht & Hg & Htg). split.
  - rewrite (handleThreadBlock_invitation _ _ _ _ _ _ Hi).
    rewrite (handleThreadBlock_switch_created _ _ _ sk thrd _ Ht Htg Hk Hn).
    fold s1. rewrite Hp, Hf. cbn. now rewrite Hb.
  - unfold handleThreadBlock. rewrite Hpay, Hs, Hbl.
    assert (Hfound : getThread s' (ThreadId signed) = Some thrd).
    { unfold getThread in *. rewrite Hth. cbn.
      apply find_snoc_fresh; [exact Hg|now apply bool_decide_eq_true_2]. }
    rewrite Hfound. unfold handleThreadBlock_switch. now rewrite Ht.
Qed.

End HandlerFrames.

(** ** More runs of the handlers *)

Section HandlerFrameRuns.

Import Service.

#[local] Existing Instances demo_Libp2p demo_Protobuf demo_Ipfs demo_Host.

Lemma demo_invitation :
  invitation demo_service demo_invite demo_signed demo_invite_block /\
  invitation_key demo_service demo_signed demo_invite_block [].
Proof.
  split.
  - eexists. repeat split; reflexivity.
  - eexists. repeat split; reflexivity.
Defined.

(** A relayed message of type 9, correctly signed, is ignored. *)
Lemma handleOfflineRelay_unknown_type_witness :
  handleOfflineRelay 1 demo_service "QmCafe"
    (demo_msg Message_OFFLINE_RELAY [x09; x01; "h"%byte]) None
  = Some (Return None None demo_service).
Proof.
  eapply (handleOfflineRelay_unknown_type 0 demo_service
            "QmCafe" _ None "QmRelayed" _ 9).
  - do 5 eexists. repeat split; reflexivity.
  - reflexivity.
Defined.

(** A PING inside a relay inside a relay, each correctly signed. *)
Lemma handleOfflineRelay_nested_witness :
  handleOfflineRelay 2 demo_service "QmCafe"
    (demo_msg Message_OFFLINE_RELAY [x03; x01; x00; x01; "h"%byte]) None
  = Some (Return None None demo_service).
Proof.
  eapply (proj1 (handleOfflineRelay_nested 0 demo_service "QmCafe"
            (demo_msg Message_OFFLINE_RELAY [x03; x01; x00; x01; "h"%byte])
            None "QmRelayed"
            (demo_msg Message_OFFLINE_RELAY [x00; x01; "h"%byte])
            "QmRelayed" (demo_msg Message_PING ["h"%byte])
            (fun s pid pmes opts => Some (handlePing s pid pmes opts))
            (Return (Some (demo_msg Message_PING ["h"%byte])) None demo_service)
            _ eq_refl _ eq_refl eq_refl)).
  Unshelve.
  - do 5 eexists. repeat split; reflexivity.
  - do 5 eexists. repeat split; reflexivity.
Defined.

(** A relayed OFFLINE_ACK with a wrong signature byte: the pointers
    are all still there. *)
Lemma handleOfflineRelay_unauthenticated_witness :
  exists o,
    handleOfflineRelay 1 demo_service "QmCafe"
      (demo_msg Message_OFFLINE_RELAY [x02; x00; "h"%byte]) None = Some o /\
    outcome_state o = demo_service.
Proof.
  destruct (handleOfflineRelay_unauthenticated 0 demo_service
              "QmCafe" (demo_msg Message_OFFLINE_RELAY [x02; x00; "h"%byte]) None)
    as (o & Hrun & Hs & _).
  - intros id inner
      (payload & plaintext & env & ser & pubkey & Hp & Hd & He & Hm & Hk & Hv & _).
    cbn in Hp. injection Hp as <-. cbn in Hd. injection Hd as <-.
    cbn in He. injection He as <-. cbn in Hv. discriminate.
  - exists o. split; assumption.
Defined.

(** Alice's acknowledgement retracts her pointer whichever peer it
    names. *)
Lemma handleOfflineAck_payload_unused_witness :
  handleOfflineAck demo_service "QmAlice"
    (demo_msg Message_OFFLINE_ACK (list_byte_of_string "QmZed")) (Some true)
  = handleOfflineAck demo_service "QmAlice"
      (demo_msg Message_OFFLINE_ACK (list_byte_of_string "QmCafe")) None /\
  exists e,
    handleOfflineAck demo_service "QmCarol"
      (demo_msg Message_OFFLINE_ACK (list_byte_of_string "QmCafe")) None
    = Return None (Some e) demo_service.
Proof.
  split.
  - edestruct (handleOfflineAck_payload_unused demo_service
                 "QmAlice"
                 (demo_msg Message_OFFLINE_ACK (list_byte_of_string "QmCafe"))
                 None) as (W & _); [reflexivity..|].
    eapply W; reflexivity.
  - edestruct (handleOfflineAck_payload_unused demo_service
                 "QmCarol"
                 (demo_msg Message_OFFLINE_ACK (list_byte_of_string "QmCafe"))
                 None) as (_ & _ & W); [reflexivity..|].
    apply W. reflexivity.
Defined.

(** The block of cid ["A"] is stored and then found. *)
Lemma handleBlock_stores_witness :
  let block := {| RawData := list_byte_of_string "hi"; Block_Cid := ["A"%byte] |} in
  let s' := set_Blocks demo_service (node_Blocks demo_service ++ [block]) in
  handleBlock demo_service "QmAlice" demo_block None
    = Return None None s' /\
  Blockstore_Has s' ["A"%byte] = (true, None).
Proof.
  cbv zeta.
  edestruct (handleBlock_stores demo_service "QmAlice"
               demo_block None) as [W1 W2]; [reflexivity..|].
  split; [exact W1|]. apply W2. reflexivity.
Defined.

(** With a block store whose lookup of ["B"] fails, the block ["B"]
    that the node holds is asked for again. *)
Lemma handleStore_need_faults_witness :
  handleStore (I := demo_Ipfs_flaky) demo_service "QmAlice"
    {| MessageType := Message_STORE;
       Payload := Some {| TypeUrl := "CidList";
                          Value := list_byte_of_string "A!BC" |} |} None
    = Return
        (Some {| MessageType := Message_STORE;
                 Payload := Some {| TypeUrl := "CidList";
                                    Value := list_byte_of_string "ABC" |} |})
        None demo_service.
Proof.
  lazymatch goal with |- _ _ _ ?m _ = _ =>
    edestruct (handleStore_need_faults (I := demo_Ipfs_flaky) demo_service
                 "QmAlice" m None) as [W _]
  end; [reflexivity..|].
  eapply W. reflexivity.
Defined.

(** Before the block of cid ["A"] is stored, a negotiation over A, B
    and C asks for A and C; after, for C alone. *)
Lemma handleStore_after_handleBlock_witness :
  handleStore_need demo_service ["A"; "B"; "C"] = ["A"; "C"] /\
  exists s',
    handleBlock demo_service "QmAlice" demo_block None
      = Return None None s' /\
    handleStore_need s' ["A"; "B"; "C"] = ["C"].
Proof.
  split; [reflexivity|].
  edestruct (handleStore_after_handleBlock demo_service
               "QmAlice" demo_block None) as (s' & W1 & W2);
    [reflexivity..|].
  exists s'. split; [exact W1|]. rewrite W2. reflexivity.
Defined.

(** The invite to thread ["Z"] is admitted: the thread and the inviter
    are recorded. *)
Lemma handleThreadBlock_INVITE_admitted_witness :
  exists s',
    handleThreadBlock demo_service "QmInviter" demo_invite None
      = Return None None s' /\
    threads s' = threads demo_service ++ [demo_thread] /\
    datastore_Peers s' = [demo_inviter].
Proof.
  destruct demo_invitation as [Hi Hk].
  edestruct (handleThreadBlock_INVITE_admitted demo_service "QmInviter"
               demo_invite None demo_signed demo_invite_block [] demo_thread
               demo_inviter Hi Hk)
    as [_ W]; [reflexivity..|].
  eexists. split; [exact W|]. split; reflexivity.
Defined.

(** With a peer table that refuses inserts, the same invite fails and
    leaves thread ["Z"] behind without any peer. *)
Lemma handleThreadBlock_INVITE_thread_without_inviter_witness :
  exists s1,
    handleThreadBlock (H := demo_Host_full) demo_service "QmInviter"
      demo_invite None
      = Return None (Some "database is locked") s1 /\
    threads s1 = threads demo_service ++ [demo_thread] /\
    datastore_Peers s1 = [].
Proof.
  destruct demo_invitation as [Hi Hk].
  edestruct (handleThreadBlock_INVITE_thread_without_inviter
               (H := demo_Host_full) demo_service "QmInviter" demo_invite None
               demo_signed demo_invite_block [] demo_thread Hi Hk)
    as (_ & W & Hth & Hps); [reflexivity|].
  eexists. split; [eapply (W demo_inviter); reflexivity|]. split; reflexivity.
Defined.

(** The same invite with a wrong signature byte creates nothing. *)
Lemma handleThreadBlock_INVITE_not_admitted_witness :
  handleThreadBlock demo_service "QmInviter"
    (demo_msg Message_THREAD_BLOCK
       (["Z"%byte; x00; x00] ++ list_byte_of_string "QmSelf")) None
  = Return None (Some (errors_New "bad signature")) demo_service.
Proof.
  edestruct (handleThreadBlock_INVITE_not_admitted demo_service
               "QmInviter"
               (demo_msg Message_THREAD_BLOCK
                  (["Z"%byte; x00; x00] ++ list_byte_of_string "QmSelf")) None)
    as (_ & _ & W & _).
  - eexists. repeat split; reflexivity.
  - eapply W; [reflexivity..|]. left. reflexivity.
Defined.

(** The invite to thread ["Z"], handled twice. *)
Lemma handleThreadBlock_INVITE_replay_witness :
  exists s',
    handleThreadBlock demo_service "QmInviter" demo_invite None
      = Return None None s' /\
    handleThreadBlock s' "QmInviter" demo_invite None
      = Return None (Some (errors_New "thread exists")) s'.
Proof.
  destruct demo_invitation as [Hi Hk].
  eexists.
  eapply (handleThreadBlock_INVITE_replay demo_service "QmInviter" demo_invite
            None demo_signed demo_invite_block [] demo_thread demo_inviter
            _ _ Hi Hk); reflexivity.
Defined.

End HandlerFrameRuns.

(** ** Further properties of the block outbox *)

Section DeliveryProperties.

Import Service.
Import Outbox.

Context `{T : Transport}.

Implicit Types (q : BlockOutbox) (svc : ThreadsService) (m : BlockMessage)
  (rows msgs : list BlockMessage) (p : string).

(** *** One message *)

Lemma handle_cases q svc p m :
  handle q svc p m =
    match connection_error svc p with
    | Some e => (Some e, q)
    | None =>
      if sent_direct svc p m then (None, q)
      else
        match inboxes_of q p with
        | [] => (None, q)
        | inboxes => AddForInbox q p (Env m) inboxes
        end
    end.
Proof.
  assert (Hbox :
    match datastore_Peers q !! p with
    | Some contact =>
      if bool_decide (0 < length (Inboxes contact))
      then AddForInbox q p (Env m) (Inboxes contact)
      else (None, q)
    | None => (None, q)
    end =
    match inboxes_of q p with
    | [] => (None, q)
    | inboxes => AddForInbox q p (Env m) inboxes
    end).
  { unfold inboxes_of.
    destruct (datastore_Peers q !! p) as [[cid [|i inboxes]]|]; cbn;
      [rewrite bool_decide_eq_false_2 by lia
      |rewrite bool_decide_eq_true_2 by lia|]; reflexivity. }
  unfold handle, connection_error, sent_direct. rewrite Hbox.
  destruct (online svc); cbn; [|reflexivity].
  destruct (SwarmConnected p) as [[|]|e]; cbn; [|reflexivity..].
  destruct (SendMessage p (Env m)) as [e|];
    repeat case_bool_decide; try reflexivity; congruence.
Qed.

Lemma handle_cafe q svc p m :
  cafeOutbox (snd (handle q svc p m)) =
    cafeOutbox q ++ option_list (relay_request q svc p m).
Proof.
  rewrite handle_cases. unfold relay_request, AddForInbox.
  destruct (connection_error svc p); cbn; [now rewrite app_nil_r|].
  destruct (sent_direct svc p m); cbn; [now rewrite app_nil_r|].
  destruct (inboxes_of q p) as [|i inboxes]; cbn; [now rewrite app_nil_r|].
  destruct (AddForInbox_fault _ _ _); cbn; [now rewrite app_nil_r|reflexivity].
Qed.

Lemma relay_request_stable q1 q2 svc p m :
  datastore_Peers q1 = datastore_Peers q2 ->
  relay_request q1 svc p m = relay_request q2 svc p m.
Proof. intros Hp. unfold relay_request, inboxes_of. now rewrite Hp. Qed.

(** X15.  [handle] reports two failures only: that of the connection check,
    and that of the cafe outbox when the message has to go through the
    peer's inboxes.  A failed direct send is never reported. *)
Theorem handle_error_origin q svc m e :
  handled q svc m = Some e <->
  connection_error svc (Peer m) = Some e \/
  (connection_error svc (Peer m) = None /\
   sent_direct svc (Peer m) m = false /\
   inboxes_of q (Peer m) <> [] /\
   AddForInbox_fault (Peer m) (Env m) (inboxes_of q (Peer m)) = Some e).
Proof.
  unfold handled. rewrite handle_cases. unfold AddForInbox.
  destruct (connection_error svc (Peer m)) as [e'|]; cbn.
  - split; [intros [= ->]; now left|].
    intros [[= ->]|[Hn _]]; [reflexivity|discriminate].
  - destruct (sent_direct svc (Peer m) m); cbn.
    + split; [discriminate|]. intros [|(_ & ? & _)]; discriminate.
    + destruct (inboxes_of q (Peer m)) as [|i inboxes]; cbn.
      * split; [discriminate|].
        intros [|(_ & _ & Hn & _)]; [discriminate|now contradiction Hn].
      * destruct (AddForInbox_fault _ _ _) as [e'|]; cbn.
        -- split; [intros [= ->]; right; auto|].
           intros [|(_ & _ & _ & [= ->])]; [discriminate|reflexivity].
        -- split; [discriminate|].
           intros [|(_ & _ & _ & ?)]; discriminate.
Qed.

(** X16.  [handle] leaves at most one request in the cafe outbox, after
    those already there.  It leaves one exactly when the message was
    not sent directly, the connection check did not fail, the peer has
    inboxes and the cafe outbox took the request; the request carries
    the message's envelope and all the inboxes of the peer, and
    [handle] then returns no error. *)
Theorem handle_hands_over q svc m :
  cafeOutbox (snd (handle q svc (Peer m) m)) =
    cafeOutbox q ++ option_list (relay_request q svc (Peer m) m) /\
  (forall r, relay_request q svc (Peer m) m = Some r <->
     connection_error svc (Peer m) = None /\
     sent_direct svc (Peer m) m = false /\
     inboxes_of q (Peer m) <> [] /\
     AddForInbox_fault (Peer m) (Env m) (inboxes_of q (Peer m)) = None /\
     r = {| Req_Peer := Peer m; Req_Env := Env m;
            Req_Inboxes := inboxes_of q (Peer m) |}) /\
  (is_Some (relay_request q svc (Peer m) m) -> handled q svc m = None).
Proof.
  split; [apply handle_cafe|]. unfold handled. rewrite handle_cases.
  unfold relay_request, AddForInbox.
  destruct (connection_error svc (Peer m)) as [e'|]; cbn.
  { split; [|intros [? [=]]]. intros r. split; [discriminate|].
    intros ([=] & _). }
  destruct (sent_direct svc (Peer m) m); cbn.
  { split; [|intros [? [=]]]. intros r. split; [discriminate|].
    intros (_ & [=] & _). }
  destruct (inboxes_of q (Peer m)) as [|i inboxes]; cbn.
  { split; [|intros [? [=]]]. intros r. split; [discriminate|].
    intros (_ & _ & Hn & _). now contradiction Hn. }
  destruct (AddForInbox_fault _ _ _) as [e'|]; cbn.
  { split; [|intros [? [=]]]. intros r. split; [discriminate|].
    intros (_ & _ & _ & [=] & _). }
  split; [|reflexivity]. intros r. split.
  - intros [= <-]. auto 10.
  - intros (_ & _ & _ & _ & ->). reflexivity.
Qed.

(** *** The cafe outbox over a flush *)

Lemma filter_all_elem {A} (P : A -> Prop) `{!forall x, Decision (P x)}
  (l : list A) :
  (forall x, x ∈ l -> P x) -> filter P l = l.
Proof.
  induction l as [|a l IH]; intros HP; [reflexivity|].
  rewrite filter_cons, IH by (intros x Hx; apply HP; now right).
  destruct (decide (P a)) as [_|Hn]; [reflexivity|].
  contradiction Hn. apply HP. now left.
Qed.

Lemma filter_none_elem {A} (P : A -> Prop) `{!forall x, Decision (P x)}
  (l : list A) :
  (forall x, x ∈ l -> ~ P x) -> filter P l = [].
Proof.
  induction l as [|a l IH]; intros HP; [reflexivity|].
  rewrite filter_cons, IH by (intros x Hx; apply HP; now right).
  destruct (decide (P a)) as [Hy|_]; [|reflexivity].
  exfalso. apply (HP a); [now left|assumption].
Qed.

Lemma omap_ext_all {A B} (f g : A -> option B) (l : list A) :
  (forall x, f x = g x) -> omap f l = omap g l.
Proof.
  intros Hfg. induction l as [|a l IH]; cbn; [reflexivity|].
  now rewrite Hfg, IH.
Qed.

Lemma relay_request_peer q svc p m r :
  relay_request q svc p m = Some r -> Req_Peer r = p.
Proof.
  unfold relay_request.
  destruct (connection_error svc p); [discriminate|].
  destruct (sent_direct svc p m); [discriminate|].
  destruct (inboxes_of q p); [discriminate|].
  destruct (AddForInbox_fault _ _ _); [discriminate|].
  now intros [= <-].
Qed.

Lemma worker_cafe svc p msgs : forall q toDelete,
  cafeOutbox (snd (worker q svc p msgs toDelete)) =
    cafeOutbox q ++ omap (relay_request q svc p) msgs.
Proof.
  induction msgs as [|m rest IH]; intros q toDelete; cbn.
  - now rewrite app_nil_r.
  - pose proof (handle_frame q svc p m) as (_ & _ & Hp).
    pose proof (handle_cafe q svc p m) as Hc.
    destruct (handle q svc p m) as [err q']. cbn in Hp, Hc.
    assert (Hrest : forall toDelete',
              cafeOutbox (snd (worker q' svc p rest toDelete')) =
                cafeOutbox q ++
                match relay_request q svc p m with
                | Some r => r :: omap (relay_request q svc p) rest
                | None => omap (relay_request q svc p) rest
                end).
    { intros toDelete'. rewrite IH, Hc.
      rewrite (omap_ext_all _ (relay_request q svc p))
        by (intros; now apply relay_request_stable).
      destruct (relay_request q svc p m); cbn; [|now rewrite app_nil_r].
      now rewrite <- app_assoc. }
    destruct err; apply Hrest.
Qed.

Lemma workers_fold_cafe svc (gl : list (string * list BlockMessage)) :
  forall q toDelete,
  cafeOutbox
    (snd (foldl (fun acc g => worker (snd acc) svc (fst g) (snd g) (fst acc))
                (toDelete, q) gl)) =
  cafeOutbox q ++
  concat ((fun g : string * list BlockMessage =>
            omap (relay_request q svc (fst g)) (snd g)) <$> gl).
Proof.
  induction gl as [|[p g] gl IH]; intros q toDelete; cbn.
  - now rewrite app_nil_r.
  - pose proof (worker_spec svc p g q toDelete) as (_ & _ & _ & Hp).
    pose proof (worker_cafe svc p g q toDelete) as Hc.
    destruct (worker q svc p g toDelete) as [td q1]. cbn in Hp, Hc.
    rewrite IH, Hc, <- app_assoc. do 3 f_equal.
    apply list_fmap_ext. intros i [p' g'] _. cbn.
    apply omap_ext_all. intros; now apply relay_request_stable.
Qed.

Lemma groups_cafe_peer q svc p0 (gl : list (string * list BlockMessage)) :
  NoDup gl.*1 ->
  filter (fun r => Req_Peer r = p0)
    (concat ((fun g : string * list BlockMessage =>
            omap (relay_request q svc (fst g)) (snd g)) <$> gl)) =
  omap (relay_request q svc p0)
    (default [] ((list_to_map gl : gmap string (list BlockMessage)) !! p0)).
Proof.
  induction gl as [|[p g] gl IH]; intros Hnd; cbn; [reflexivity|].
  rewrite fmap_cons in Hnd. apply NoDup_cons in Hnd as [Hp Hnd].
  rewrite filter_app, (IH Hnd). destruct (decide (p = p0)) as [->|Hne].
  - rewrite lookup_insert_eq. cbn.
    rewrite (not_elem_of_list_to_map_1 _ _ Hp). cbn. rewrite app_nil_r.
    apply filter_all_elem. intros r Hr.
    apply list_elem_of_omap in Hr as (m & _ & Hr).
    now apply relay_request_peer in Hr.
  - rewrite lookup_insert_ne by assumption.
    rewrite (filter_none_elem _ (omap _ g)); [reflexivity|].
    intros r Hr Hpeer. apply list_elem_of_omap in Hr as (m & _ & Hr).
    apply relay_request_peer in Hr. congruence.
Qed.

(** The requests one page leaves for a peer: those of its messages
    for that peer, in the order of the page. *)
Lemma workers_cafe_peer q svc msgs p0 :
  filter (fun r => Req_Peer r = p0)
    (cafeOutbox (snd (workers q svc (group_by_peer msgs)))) =
  filter (fun r => Req_Peer r = p0) (cafeOutbox q) ++
  omap (relay_request q svc p0) (filter (fun m => Peer m = p0) msgs).
Proof.
  unfold workers. rewrite workers_fold_cafe, filter_app. f_equal.
  rewrite groups_cafe_peer by apply NoDup_fst_map_to_list.
  rewrite list_to_map_to_list. f_equal.
  destruct (group_by_peer msgs !! p0) as [g|] eqn:Hg; cbn.
  - now apply group_by_peer_lookup in Hg as [-> _].
  - destruct (filter _ msgs) as [|x l] eqn:Hf; [reflexivity|].
    assert (Hsome : group_by_peer msgs !! p0 = Some (x :: l))
      by (apply group_by_peer_lookup; split; [now rewrite Hf|discriminate]).
    congruence.
Qed.

(** The requests a run of [batch] leaves for a peer: those of the
    messages for that peer in the pages it went through, in order. *)
Lemma batch_cafe_peer svc p0 fuel : forall q msgs q' pages,
  batch fuel q svc msgs = Some (q', pages) ->
  filter (fun r => Req_Peer r = p0) (cafeOutbox q') =
  filter (fun r => Req_Peer r = p0) (cafeOutbox q) ++
  omap (relay_request q svc p0) (filter (fun m => Peer m = p0) (concat pages)).
Proof.
  induction fuel as [|fuel IH]; intros q msgs q' pages.
  - cbn. destruct (last msgs) eqn:Hl; [discriminate|].
    intros [= <- <-]. apply last_None in Hl as ->. cbn. now rewrite app_nil_r.
  - rewrite batch_step. destruct (last msgs) as [x|] eqn:Hl.
    2: { intros [= <- <-]. apply last_None in Hl as ->. cbn.
         now rewrite app_nil_r. }
    pose proof (workers_spec q svc msgs) as (_ & _ & _ & Hp1).
    pose proof (workers_cafe_peer q svc msgs p0) as Hc1.
    destruct (workers q svc (group_by_peer msgs)) as [toDelete q1].
    cbn in Hp1, Hc1.
    destruct (delete_each _ toDelete) as [deleted rows']. cbv zeta.
    destruct (batch fuel _ svc _) as [[q2 pages2]|] eqn:Hb; [|discriminate].
    intros [= <- <-]. apply IH in Hb. cbn in Hb.
    rewrite Hb, Hc1, <- app_assoc. f_equal. cbn.
    rewrite filter_app, omap_app. f_equal.
    apply omap_ext_all. intros; now apply relay_request_stable.
Qed.

(** *** The pages of a flush *)

#[local] Existing Instances id_le_trans id_le_total.

Lemma well_keyed_NoDup rows : well_keyed rows -> NoDup rows.
Proof. intros [_ Hnd]. exact (NoDup_fmap_1 _ _ Hnd). Qed.

(** Where a page ends: the rows after its last id are the rows it was
    drawn from, less the page itself. *)
Lemma page_boundary rows offset x :
  well_keyed rows ->
  last (BlockMessages_List rows offset blockFlushGroupSize) = Some x ->
  Id x <> "" /\
  x ∈ BlockMessages_List rows offset blockFlushGroupSize /\
  forall m, m ∈ rows ->
    (after (Id x) m = true <->
     after offset m = true /\
     m ∉ BlockMessages_List rows offset blockFlushGroupSize).
Proof.
  intros [Hne Hnd] Hlast. rewrite Forall_forall in Hne.
  set (page := BlockMessages_List rows offset blockFlushGroupSize) in *.
  assert (Hx : x ∈ page).
  { apply last_Some in Hlast as [l' ->]. apply elem_of_app. right. now left. }
  destruct (page_elem _ _ _ _ Hx) as [Hx0 Hxa].
  assert (Hxne : Id x <> "") by now apply Hne.
  split; [assumption|]. split; [assumption|]. intros m Hm. split.
  - intros Hma. rewrite (after_ltb (Id x)) in Hma by assumption. split.
    + unfold after in *. destruct (bool_decide (offset = "")); [reflexivity|].
      cbn in *. eapply ltb_trans; eassumption.
    + intros Hin. pose proof (page_last_max _ _ _ _ _ Hlast Hin) as Hle.
      apply leb_not_ltb in Hle. congruence.
  - intros [Hma Hout]. rewrite after_ltb by assumption.
    pose proof (page_rest _ _ _ _ _ Hlast Hm Hma Hout) as Hle.
    apply leb_iff in Hle as [Hlt|Heq]; [assumption|].
    contradiction Hout.
    now rewrite <- (NoDup_fmap_elem_inj Id rows x m Hnd Hx0 Hm Heq).
Qed.

(** The pages of a flush, one after the other, are the rows after the
    offset, each once, in the order of ids. *)
Lemma paging_concat rows offset pages :
  well_keyed rows ->
  paging rows offset pages ->
  StronglySorted id_le (concat pages) /\
  concat pages ≡ₚ filter (fun m => after offset m = true) rows.
Proof.
  intros Hw Hpg. pose proof (well_keyed_NoDup _ Hw) as Hnd.
  induction Hpg as [offset Hnil|offset x pages Hlast Hpg [IHs IHp]].
  - cbn. split; [constructor|]. symmetry. apply Permutation_nil_r.
    apply filter_none_elem. intros m Hm.
    rewrite (page_empty rows offset _ m Hnil Hm). discriminate.
  - destruct (page_boundary _ _ _ Hw Hlast) as (Hxne & Hx & Hb).
    set (page := BlockMessages_List rows offset blockFlushGroupSize) in *.
    assert (Hlater : forall m, m ∈ concat pages ->
                       m ∈ rows /\ after (Id x) m = true).
    { intros m Hm. rewrite IHp in Hm.
      apply list_elem_of_filter in Hm. tauto. }
    cbn [concat]. split.
    + apply StronglySorted_app_2; [|apply page_sorted|assumption].
      intros x1 x2 H1 H2. destruct (Hlater _ H2) as [_ Hx2].
      rewrite after_ltb in Hx2 by assumption.
      pose proof (page_last_max _ _ _ _ _ Hlast H1) as Hle. unfold id_le in *.
      eapply leb_trans; [exact Hle|]. apply leb_iff. now left.
    + apply NoDup_Permutation.
      * apply NoDup_app. split; [|split].
        -- eapply sublist_NoDup; [|apply sublist_take].
           rewrite merge_sort_Permutation.
           eapply sublist_NoDup; [exact Hnd|apply sublist_filter].
        -- intros m Hm Hm'. destruct (Hlater _ Hm') as [Hm0 Hma].
           apply (Hb m Hm0) in Hma as [_ Hout]. contradiction.
        -- rewrite IHp. eapply sublist_NoDup; [exact Hnd|apply sublist_filter].
      * eapply sublist_NoDup; [exact Hnd|apply sublist_filter].
      * intros m. rewrite elem_of_app, list_elem_of_filter. split.
        -- intros [Hm|Hm].
           ++ apply page_elem in Hm. tauto.
           ++ destruct (Hlater _ Hm) as [Hm0 Hma].
              apply (Hb m Hm0) in Hma. tauto.
        -- intros [Hma Hm0].
           assert (Hs : m ∈ merge_sort id_le
                          (filter (fun m => after offset m = true) rows))
             by (rewrite merge_sort_Permutation; now apply list_elem_of_filter).
           assert (Hnds : NoDup (merge_sort id_le
                                   (filter (fun m => after offset m = true) rows))).
           { rewrite merge_sort_Permutation.
             eapply sublist_NoDup; [exact Hnd|apply sublist_filter]. }
           rewrite <- (take_drop blockFlushGroupSize) in Hs, Hnds.
           apply NoDup_app in Hnds as (_ & Hdisj & _).
           apply elem_of_app in Hs as [Hin|Hdrop]; [now left|right].
           rewrite IHp. apply list_elem_of_filter. split; [|assumption].
           apply (Hb m Hm0). split; [assumption|].
           intros Hin. exact (Hdisj m Hin Hdrop).
Qed.

Lemma paging_sorted_queue rows pages :
  well_keyed rows ->
  paging rows "" pages ->
  concat pages = merge_sort id_le rows.
Proof.
  intros Hw Hpg. destruct (paging_concat _ _ _ Hw Hpg) as [Hs Hp].
  rewrite filter_all in Hp by reflexivity.
  apply (StronglySorted_unique_strong id_le).
  - intros x1 x2 H1 H2 H12 H21. rewrite Hp in H1.
    rewrite merge_sort_Permutation in H2.
    destruct Hw as [_ Hnd].
    apply (NoDup_fmap_elem_inj Id rows x1 x2 Hnd H1 H2).
    now apply String.leb_antisym.
  - exact Hs.
  - apply StronglySorted_merge_sort; apply _.
  - now rewrite Hp, merge_sort_Permutation.
Qed.

(** What a flush that returns has done, whatever fuel it was given. *)
Lemma Flush_outcome q svc fuel q' pages :
  service q = Some svc ->
  well_keyed (datastore_BlockMessages q) ->
  Flush fuel q = Some (q', pages) ->
  paging (datastore_BlockMessages q) "" pages /\
  datastore_BlockMessages q' =
    filter (fun m => removed q svc m = false) (datastore_BlockMessages q) /\
  datastore_Peers q' = datastore_Peers q /\
  service q' = service q.
Proof.
  intros Hs Hw Hrun. unfold Flush in Hrun. rewrite Hs in Hrun.
  destruct (batch_run q svc (datastore_BlockMessages q) Hw
              (S (length (datastore_BlockMessages q))) "" q)
    as (q0 & pages0 & Hrun0 & Hpg & Hfin & Hp & Hs0).
  - reflexivity.
  - symmetry. apply filter_all. intros m. now left.
  - pose proof (length_filter (fun m => after "" m = true)
                  (datastore_BlockMessages q)). lia.
  - eapply (batch_fuel_le _ (fuel `max` S (length (datastore_BlockMessages q))))
      in Hrun; [|lia].
    eapply (batch_fuel_le _ (fuel `max` S (length (datastore_BlockMessages q))))
      in Hrun0; [|lia].
    rewrite Hrun in Hrun0. injection Hrun0 as <- <-. auto.
Qed.

Lemma well_keyed_sublist rows rows' :
  rows' `sublist_of` rows -> well_keyed rows -> well_keyed rows'.
Proof.
  intros Hsub [Hne Hnd]. split.
  - rewrite Forall_forall in *. intros m Hm. apply Hne.
    eapply elem_of_sublist; eassumption.
  - eapply sublist_NoDup; [exact Hnd|]. now apply fmap_sublist.
Qed.

(** A run of [batch] only removes rows and only appends requests. *)
Lemma batch_frame svc fuel : forall q msgs q' pages,
  batch fuel q svc msgs = Some (q', pages) ->
  service q' = service q /\
  datastore_Peers q' = datastore_Peers q /\
  datastore_BlockMessages q' `sublist_of` datastore_BlockMessages q /\
  cafeOutbox q `prefix_of` cafeOutbox q'.
Proof.
  induction fuel as [|fuel IH]; intros q msgs q' pages.
  - cbn. destruct (last msgs); [discriminate|]. now intros [= <- <-].
  - rewrite batch_step. destruct (last msgs) as [x|]; [|now intros [= <- <-]].
    pose proof (workers_spec q svc msgs) as (_ & Hs1 & Hr1 & Hp1).
    pose proof (workers_fold_cafe svc (map_to_list (group_by_peer msgs)) q [])
      as Hc1. fold (workers q svc (group_by_peer msgs)) in Hc1.
    destruct (workers q svc (group_by_peer msgs)) as [toDelete q1].
    cbn in Hs1, Hr1, Hp1, Hc1.
    pose proof (delete_each_spec toDelete (datastore_BlockMessages q1)) as Hdel.
    destruct (delete_each _ toDelete) as [deleted rows']. cbn in Hdel. cbv zeta.
    destruct (batch fuel _ svc _) as [[q2 pages2]|] eqn:Hb; [|discriminate].
    intros [= <- <-]. apply IH in Hb as (Hs2 & Hp2 & Hr2 & Hc2). cbn in *.
    split; [congruence|]. split; [congruence|]. split.
    + etransitivity; [exact Hr2|]. rewrite Hdel, Hr1. apply sublist_filter.
    + etransitivity; [|exact Hc2]. rewrite Hc1. now apply prefix_app_r.
Qed.

(** A flush of a started node with a well-keyed queue returns, and
    this is what it returns. *)
Lemma Flush_result q svc :
  service q = Some svc ->
  well_keyed (datastore_BlockMessages q) ->
  exists q' pages reqs,
    (forall fuel, length (datastore_BlockMessages q) < fuel ->
                  Flush fuel q = Some (q', pages)) /\
    concat pages = merge_sort id_le (datastore_BlockMessages q) /\
    datastore_BlockMessages q' =
      filter (fun m => removed q svc m = false) (datastore_BlockMessages q) /\
    datastore_Peers q' = datastore_Peers q /\
    service q' = service q /\
    cafeOutbox q' = cafeOutbox q ++ reqs /\
    (forall p, filter (fun r => Req_Peer r = p) reqs =
       omap (relay_request q svc p)
         (filter (fun m => Peer m = p)
            (merge_sort id_le (datastore_BlockMessages q)))).
Proof.
  intros Hs Hw.
  destruct (Flush_run q svc Hs Hw) as (q' & pages & Hrun & _).
  pose proof (Hrun _ (Nat.lt_succ_diag_r _)) as Hrun0.
  destruct (Flush_outcome _ _ _ _ _ Hs Hw Hrun0) as (Hpg & Hr & Hp & Hs').
  pose proof (paging_sorted_queue _ _ Hw Hpg) as Hcat.
  unfold Flush in Hrun0. rewrite Hs in Hrun0.
  destruct (batch_frame _ _ _ _ _ _ Hrun0) as (_ & _ & _ & [reqs Hc]).
  exists q', pages, reqs. repeat (split; [assumption|]).
  intros p. pose proof (batch_cafe_peer svc p _ _ _ _ _ Hrun0) as Hf.
  rewrite Hc, filter_app, Hcat in Hf. now apply app_inv_head in Hf.
Qed.

(** A flush returns as soon as the ids are not empty, whether the node
    is started or not, and only removes rows and appends requests. *)
Lemma Flush_returns q :
  Forall (fun m => Id m <> "") (datastore_BlockMessages q) ->
  exists q' pages,
    (forall fuel, length (datastore_BlockMessages q) < fuel ->
                  Flush fuel q = Some (q', pages)) /\
    service q' = service q /\
    datastore_Peers q' = datastore_Peers q /\
    datastore_BlockMessages q' `sublist_of` datastore_BlockMessages q /\
    cafeOutbox q `prefix_of` cafeOutbox q'.
Proof.
  intros Hne. destruct (service q) as [svc|] eqn:Hsq.
  - destruct (batch_pages svc (datastore_BlockMessages q) Hne
                (S (length (datastore_BlockMessages q))) "" q)
      as (q' & pages & Hrun & _).
    { reflexivity. }
    { pose proof (length_filter (fun m => after "" m = true)
                    (datastore_BlockMessages q)). lia. }
    exists q', pages. split.
    + intros fuel Hfuel. unfold Flush. rewrite Hsq.
      eapply batch_fuel_le; [|exact Hrun]. lia.
    + apply batch_frame in Hrun. now rewrite Hsq in Hrun.
  - exists q, []. split.
    + intros fuel _. unfold Flush. now rewrite Hsq.
    + rewrite Hsq. repeat split; reflexivity.
Qed.

Lemma Add_row q p env :
  fst (Add q p env) = None ->
  Add q p env =
    (None, set_BlockMessages q (datastore_BlockMessages q ++ [added_row q p env])).
Proof.
  unfold Add, BlockMessages_Add, added_row.
  destruct (BlockMessages_Add_fault _); cbn; [discriminate|reflexivity].
Qed.

Lemma well_keyed_snoc rows m :
  well_keyed rows -> Id m <> "" -> Id m ∉ Id <$> rows ->
  well_keyed (rows ++ [m]).
Proof.
  intros [Hne Hnd] Hk Hfresh. split.
  - apply Forall_app. split; [assumption|]. now repeat constructor.
  - rewrite fmap_app. apply NoDup_app. split; [assumption|]. split.
    + intros id Hid Hin. cbn in Hin. apply list_elem_of_singleton in Hin.
      congruence.
    + cbn. apply NoDup_singleton.
Qed.

Lemma removed_stable q1 q2 svc m :
  datastore_Peers q1 = datastore_Peers q2 -> removed q1 svc m = removed q2 svc m.
Proof. intros Hp. unfold removed. now rewrite (handled_stable q1 q2 svc m Hp). Qed.









End DeliveryProperties.

(** ** The outbox on concrete queues, continued *)

Section DeliveryRuns.

Import Service.
Import Outbox.

Lemma demo_outbox_online_well_keyed :
  well_keyed (datastore_BlockMessages demo_outbox_online).
Proof.
  split.
  - repeat constructor; discriminate.
  - apply (bool_decide_unpack _). vm_compute. exact I.
Defined.









End DeliveryRuns.
